(** * Verification of [omr/exam.py]: single exam processing

    A shallow embedding of the optical-mark-recognition pipeline of
    [omr/exam.py] (class [Form], [process_exam], [center_on_box]) and the
    properties of its answer selection, reference search, margin trimming,
    size check and offset update.

    Modelling conventions.
    - A Python exception is a value [Raise e] of the [result] type; a
      sequence of statements is a chain of binds, so an exception raised
      by one statement is the outcome of the whole sequence, as in Python
      code without [try]/[except] (the file has none).
    - A numpy float64 is an [npfloat]: an exact rational, one of the two
      infinities, or NaN.  Rounding and signed zeros are not modelled;
      division by zero and the comparisons with NaN follow IEEE 754, as
      numpy does.
    - A 2-D numpy array of integers is an [ndarray]: its shape and a
      function from indices to values. *)

From Stdlib Require Import String.
From Stdlib Require Import ZArith QArith List Lia Bool Arith.
From Stdlib Require Import Permutation Sorted Qround.
Import ListNotations.

(** ** Exceptions *)

(** The exceptions of the code.  [StandardError] is the name the two
    [raise] statements of the file use; where that name is not bound the
    same statements raise a name error instead, and raise all the same. *)
Inductive exn : Type :=
| IndexError      (* index out of bounds *)
| ValueError      (* numpy reductions of empty sequences, shape mismatches *)
| StandardError   (* the error raised by [check_size] and [fit_reference] *)
| IOError         (* failures of the image codec and of the file system *)
| AttributeError  (* an attribute the configuration did not set *)
| TypeError.

Inductive result (A : Type) : Type :=
| Ok (a : A)
| Raise (e : exn).

Arguments Ok {A} a.
Arguments Raise {A} e.

Definition bind {A B : Type} (m : result A) (k : A -> result B) : result B :=
  match m with
  | Ok a => k a
  | Raise e => Raise e
  end.

Notation "x <- m ;; k" := (bind m (fun x => k))
  (at level 61, m at next level, right associativity).
Notation "m ;;; k" := (bind m (fun _ => k))
  (at level 61, right associativity).

Fixpoint mapM {A B : Type} (f : A -> result B) (l : list A) : result (list B) :=
  match l with
  | [] => Ok []
  | x :: l' => y <- f x ;; ys <- mapM f l' ;; Ok (y :: ys)
  end.

(** ** numpy floats *)

Inductive npfloat : Type :=
| Fin (q : Q)
| PInf
| NInf
| NaN.

Definition isnan (x : npfloat) : bool :=
  match x with NaN => true | _ => false end.

(** [x <= y] on float64: false as soon as one side is NaN. *)
Definition fle (x y : npfloat) : bool :=
  match x, y with
  | NaN, _ | _, NaN => false
  | NInf, _ => true
  | _, PInf => true
  | Fin a, Fin b => Qle_bool a b
  | _, _ => false
  end.

Definition flt (x y : npfloat) : bool :=
  match x, y with
  | NaN, _ | _, NaN => false
  | NInf, NInf => false
  | NInf, _ => true
  | PInf, _ => false
  | Fin _, PInf => true
  | Fin a, Fin b => negb (Qle_bool b a)
  | Fin _, NInf => false
  end.

Definition fge (x y : npfloat) : bool := fle y x.

Definition Qsgn_pos (q : Q) : bool := negb (Qle_bool q 0).
Definition Qsgn_neg (q : Q) : bool := negb (Qle_bool 0 q).

(** [x / y] on float64 (numpy warns on a zero divisor and goes on). *)
Definition fdiv (x y : npfloat) : npfloat :=
  match x, y with
  | NaN, _ | _, NaN => NaN
  | Fin a, Fin b =>
      if Qeq_bool b 0 then
        if Qsgn_pos a then PInf else if Qsgn_neg a then NInf else NaN
      else Fin (a / b)
  | Fin _, _ => Fin 0
  | PInf, Fin b => if Qsgn_neg b then NInf else PInf
  | NInf, Fin b => if Qsgn_neg b then PInf else NInf
  | _, _ => NaN
  end.


(** [.astype('i')] on a finite float: truncation toward zero. *)
Definition Qtrunc (q : Q) : Z := Z.quot (Qnum q) (Zpos (Qden q)).

(** ** numpy primitives on rows of floats *)

(** [num.argmin] on one row: the first position of the minimum; a NaN
    counts as minimal and stops the scan (the loop of numpy's
    [DOUBLE_argmin]: [if (!(ip[i] >= mp)) { mp = ip[i]; min_ind = i; ... }]). *)
Fixpoint argmin_from (mp : npfloat) (min_ind i : nat) (l : list npfloat) : nat :=
  match l with
  | [] => min_ind
  | x :: l' =>
      if fge x mp then argmin_from mp min_ind (S i) l'
      else if isnan x then i
      else argmin_from x i (S i) l'
  end.

Definition np_argmin (row : list npfloat) : result nat :=
  match row with
  | [] => Raise ValueError
  | x :: l => if isnan x then Ok 0%nat else Ok (argmin_from x 0 1 l)
  end.

(** [num.sort] on one row: ascending, NaN last.  The sorted row does not
    depend on the algorithm; the model sorts by insertion. *)
Definition sort_lt (x y : npfloat) : bool :=
  flt x y || (isnan y && negb (isnan x)).

Fixpoint np_insert (x : npfloat) (l : list npfloat) : list npfloat :=
  match l with
  | [] => [x]
  | y :: l' => if sort_lt x y then x :: y :: l' else y :: np_insert x l'
  end.

Fixpoint np_sort (l : list npfloat) : list npfloat :=
  match l with
  | [] => []
  | x :: l' => np_insert x (np_sort l')
  end.

(** [num.nanmin]: the minimum of the entries that are not NaN; NaN when
    there is none; [ValueError] on an empty sequence. *)
Definition fmin_nan (acc x : npfloat) : npfloat :=
  if isnan x then acc
  else if isnan acc then x
  else if flt x acc then x else acc.

Definition np_nanmin (l : list npfloat) : result npfloat :=
  match l with
  | [] => Raise ValueError
  | x :: l' => Ok (fold_left fmin_nan l' x)
  end.

(** [num.nanargmin]: NaN replaced by [+inf], then [argmin]; [ValueError]
    when every entry is NaN. *)
Definition np_nanargmin (l : list npfloat) : result nat :=
  if forallb isnan l then Raise ValueError
  else np_argmin (map (fun x => if isnan x then PInf else x) l).

Definition Zsum (l : list Z) : Z := fold_right Z.add 0%Z l.
Definition Qsum (l : list Q) : Q := fold_right Qplus 0%Q l.

(** [num.mean] of integer data: NaN on an empty selection. *)
Definition np_mean (vals : list Z) : npfloat :=
  match vals with
  | [] => NaN
  | _ => Fin (Qmake (Zsum vals) (Pos.of_nat (length vals)))
  end.

(** [num.std(row) < t]: the standard deviation is the square root of the
    mean squared deviation, so the test is [0 < t] and [var < t * t];
    it is false on an empty row, whose deviation is NaN. *)
Definition np_var (vals : list Z) : Q :=
  let n := inject_Z (Z.of_nat (length vals)) in
  let m := (inject_Z (Zsum vals) / n)%Q in
  (Qsum (map (fun x => (inject_Z x - m) * (inject_Z x - m))%Q vals) / n)%Q.

Definition np_std_lt (vals : list Z) (t : Q) : bool :=
  match vals with
  | [] => false
  | _ => negb (Qle_bool t 0) && negb (Qle_bool (t * t) (np_var vals))
  end.

(** [num.arange(a, b)] on integers. *)
Definition np_arange (a b : Z) : list Z :=
  map (fun k => (a + Z.of_nat k)%Z) (seq 0 (Z.to_nat (b - a))).

(** [x, y = num.meshgrid(a, b)] then [zip(x.flatten(), y.flatten())]:
    [x[r][c] = a[c]] and [y[r][c] = b[r]], flattened row by row, so the
    second component runs in the outer loop. *)
Definition meshgrid_zip (a b : list Z) : list (Z * Z) :=
  flat_map (fun j => map (fun i => (i, j)) a) b.

(** ** 2-D integer arrays *)

Record ndarray : Type := mkArray {
  nrows : nat;
  ncols : nat;
  px : nat -> nat -> Z
}.

Definition shape (a : ndarray) : nat * nat := (nrows a, ncols a).

Definition of_rows (rows : list (list Z)) : ndarray :=
  {| nrows := length rows;
     ncols := length (hd [] rows);
     px := fun i j => nth j (nth i rows []) 0%Z |}.

Definition to_rows (a : ndarray) : list (list Z) :=
  map (fun i => map (px a i) (seq 0 (ncols a))) (seq 0 (nrows a)).

Definition flatten (a : ndarray) : list Z := concat (to_rows a).

(** A bound of a Python slice [a:b] on an axis of length [len]: a
    negative bound counts from the end, and the result is clipped to
    [0..len]; an omitted bound is [None]. *)
Definition slice_index (len : nat) (k : Z) : nat :=
  let k' := if (k <? 0)%Z then (k + Z.of_nat len)%Z else k in
  Z.to_nat (Z.min (Z.max k' 0) (Z.of_nat len)).

Definition slice_start (len : nat) (k : option Z) : nat :=
  match k with Some k => slice_index len k | None => 0 end.

Definition slice_stop (len : nat) (k : option Z) : nat :=
  match k with Some k => slice_index len k | None => len end.

(** [a[x0:x1, y0:y1]] *)
Definition np_slice (a : ndarray) (x0 x1 y0 y1 : option Z) : ndarray :=
  let r0 := slice_start (nrows a) x0 in
  let r1 := slice_stop (nrows a) x1 in
  let c0 := slice_start (ncols a) y0 in
  let c1 := slice_stop (ncols a) y1 in
  {| nrows := r1 - r0; ncols := c1 - c0;
     px := fun i j => px a (r0 + i) (c0 + j) |}.

(** [a[x0:x1, y0:y1] = v] *)
Definition np_assign (a : ndarray) (x0 x1 y0 y1 : Z) (v : Z) : ndarray :=
  let r0 := slice_index (nrows a) x0 in
  let r1 := slice_index (nrows a) x1 in
  let c0 := slice_index (ncols a) y0 in
  let c1 := slice_index (ncols a) y1 in
  {| nrows := nrows a; ncols := ncols a;
     px := fun i j =>
       if ((r0 <=? i) && (i <? r1) && (c0 <=? j) && (j <? c1))%nat
       then v else px a i j |}.

(** [a[0, :]] *)
Definition np_row0 (a : ndarray) : result (list Z) :=
  match nrows a with
  | O => Raise IndexError
  | S _ => Ok (map (px a 0) (seq 0 (ncols a)))
  end.

(** [num.rot90(a)]: a quarter turn counterclockwise,
    [rot90(a)[i][j] = a[j][ncols - 1 - i]]. *)
Definition np_rot90 (a : ndarray) : ndarray :=
  {| nrows := ncols a; ncols := nrows a;
     px := fun i j => px a j (ncols a - 1 - i) |}.

(** [num.hstack([a, b])]: the row counts must agree. *)
Definition np_hstack (a b : ndarray) : result ndarray :=
  if (nrows a =? nrows b)%nat then
    Ok {| nrows := nrows a; ncols := ncols a + ncols b;
          px := fun i j => if (j <? ncols a)%nat then px a i j
                           else px b i (j - ncols a) |}
  else Raise ValueError.

(** [255 * (img >= contrast)] *)
Definition binarize (contrast : Q) (img : ndarray) : ndarray :=
  {| nrows := nrows img; ncols := ncols img;
     px := fun i j => if Qle_bool contrast (inject_Z (px img i j))
                      then 255%Z else 0%Z |}.

Definition shape_eqb (s t : nat * nat) : bool :=
  ((fst s =? fst t) && (snd s =? snd t))%nat.

(** ** The reference-box search: [center_on_box] *)

Definition na_val : Z := (-9999)%Z.

(** The candidate offsets, in the order of the comprehension.  The
    test [(i**2 + j**2)**0.5 <= radius] on integers is
    [i*i + j*j <= radius*radius] (the radius is not negative where there
    is a candidate at all). *)
Definition in_radius (radius : Z) (ij : Z * Z) : bool :=
  let '(i, j) := ij in (i * i + j * j <=? radius * radius)%Z.

Definition search_coords (radius : Z) : list (Z * Z) :=
  filter (in_radius radius)
         (meshgrid_zip (np_arange (- radius) radius) (np_arange (- radius) radius)).

(** [num.mean(img[(xmin+i):(xmax+i), (ymin+j):(ymax+j)])] *)
Definition box_mean (img : ndarray) (xmin xmax ymin ymax : Z) (ij : Z * Z) : npfloat :=
  let '(i, j) := ij in
  np_mean (flatten (np_slice img (Some (xmin + i)%Z) (Some (xmax + i)%Z)
                                 (Some (ymin + j)%Z) (Some (ymax + j)%Z))).

Definition center_on_box (img : ndarray) (radius : Z) (min_ref : Q)
           (xmin xmax ymin ymax : Z) : result (Z * Z) :=
  let coords := search_coords radius in
  let fit := map (box_mean img xmin xmax ymin ymax) coords in
  m <- np_nanmin fit ;;
  if fle m (Fin min_ref) then
    k <- np_nanargmin fit ;;
    match nth_error coords k with
    | Some c => Ok c
    | None => Raise IndexError
    end
  else Ok (na_val, na_val).

(** ** The form *)

Definition rect : Type := (Z * Z * Z * Z)%type.

(** The attributes of [Form].  A rectangle that is [None] or [[]] in the
    configuration is [None]; [ref_rc] is read by [overlay_ref_fit] and
    exists only when the configuration sets it (the class itself
    declares [refrc]). *)
Record Form : Type := mkForm {
  size : nat * nat;
  offset : Z * Z;
  pos : Z * Z;
  bub : Q * Q;
  space : Q * Q;
  info : option rect;
  score : option rect;
  refzone : option (list rect);
  expected_dpi : Z * Z;
  expected_size : Z * Z;
  size_tolerance : Q * Q;
  refrc : Z * Z;
  ref_rc : option (Z * Z);
  contrast : Q;
  trim_std : Q;
  radius : Z;
  min_ref : Q;
  signal : Q;
  coords : list (list rect)
}.

(** [Form.calc_coords]: the matrix of the bubble rectangles, one row per
    question and one rectangle per answer choice. *)
Definition cell (f : Form) (i j : nat) : rect :=
  let fi := inject_Z (Z.of_nat i) in
  let fj := inject_Z (Z.of_nat j) in
  let i0 := (inject_Z (fst (pos f)) + fi * fst (space f))%Q in
  let i1 := (inject_Z (fst (pos f)) + fi * fst (space f) + fst (bub f))%Q in
  let j0 := (inject_Z (snd (pos f)) + fj * snd (space f))%Q in
  let j1 := (inject_Z (snd (pos f)) + fj * snd (space f) + snd (bub f))%Q in
  (Qtrunc i0, Qtrunc i1, Qtrunc j0, Qtrunc j1).

Definition coords_matrix (f : Form) : list (list rect) :=
  map (fun i => map (fun j => cell f i j) (seq 0 (snd (size f))))
      (seq 0 (fst (size f))).

Definition set_coords (f : Form) (c : list (list rect)) : Form :=
  mkForm (size f) (offset f) (pos f) (bub f) (space f) (info f) (score f)
         (refzone f) (expected_dpi f) (expected_size f) (size_tolerance f)
         (refrc f) (ref_rc f) (contrast f) (trim_std f) (radius f)
         (min_ref f) (signal f) c.

Definition calc_coords (f : Form) : Form := set_coords f (coords_matrix f).

(** [Form.__init__]: the configuration gives the attributes, then the
    coordinates are computed. *)
Definition Form_init (config : Form) : Form := calc_coords config.

Definition shift_rect (r c : Z) (b : rect) : rect :=
  let '(x0, x1, y0, y1) := b in ((x0 + r)%Z, (x1 + r)%Z, (y0 + c)%Z, (y1 + c)%Z).

(** [Form.set_offset] *)
Definition set_offset (f : Form) (r c : Z) : Form :=
  let offset' := ((fst (offset f) + r)%Z, (snd (offset f) + c)%Z) in
  let pos' := ((fst (pos f) + r)%Z, (snd (pos f) + c)%Z) in
  let info' := match info f with
               | Some b => Some (shift_rect r c b)
               | None => None
               end in
  let score' := match score f with
                | Some b => Some (shift_rect r c b)
                | None => None
                end in
  calc_coords
    (mkForm (size f) offset' pos' (bub f) (space f) info' score'
            (refzone f) (expected_dpi f) (expected_size f) (size_tolerance f)
            (refrc f) (ref_rc f) (contrast f) (trim_std f) (radius f)
            (min_ref f) (signal f) (coords f)).

(** The geometry of [f] with only [pos] replaced. *)
Definition with_pos (f : Form) (p : Z * Z) : Form :=
  mkForm (size f) (offset f) p (bub f) (space f) (info f) (score f)
         (refzone f) (expected_dpi f) (expected_size f) (size_tolerance f)
         (refrc f) (ref_rc f) (contrast f) (trim_std f) (radius f)
         (min_ref f) (signal f) (coords f).

(** ** Margin trimming: [Form.trim_margins] *)

(** One turn of the inner [for]: rotate, test the leading row, trim. *)
Definition trim_edge (t : Q) (img : ndarray) : result ndarray :=
  let img := np_rot90 img in
  row <- np_row0 img ;;
  if np_std_lt row t then Ok (np_slice img (Some 1%Z) None None None)
  else Ok img.

(** [for i in range(4): ...] *)
Definition trim_pass (t : Q) (img : ndarray) : result ndarray :=
  img <- trim_edge t img ;;
  img <- trim_edge t img ;;
  img <- trim_edge t img ;;
  trim_edge t img.

(** [while oldsize != img.shape: ...]; [None] when the fuel runs out. *)
Fixpoint trim_loop (fuel : nat) (t : Q) (oldsize : nat * nat) (img : ndarray)
  : option (result ndarray) :=
  if shape_eqb oldsize (shape img) then Some (Ok img)
  else match fuel with
       | O => None
       | S fuel' =>
           match trim_pass t img with
           | Raise e => Some (Raise e)
           | Ok img' => trim_loop fuel' t (shape img) img'
           end
       end.

(** The number of passes never exceeds [nrows + ncols + 1]
    ([trim_loop_total] below), so with that fuel the loop always ends
    and the second branch of [trim_margins] is never taken. *)
Definition trim_fuel (img : ndarray) : nat := S (nrows img + ncols img).

Definition trim_margins (f : Form) (img : ndarray) : result ndarray :=
  match trim_loop (trim_fuel img) (trim_std f) (0, 0)%nat img with
  | Some r => r
  | None => Ok img
  end.

(** ** Size check: [Form.check_size] *)

(** [num.true_divide(num.abs(num.subtract(shape, expected)), expected)]
    on one axis. *)
Definition pctdiff (dim : nat) (expected : Z) : npfloat :=
  fdiv (Fin (inject_Z (Z.abs (Z.of_nat dim - expected))))
       (Fin (inject_Z expected)).

Definition check_size (f : Form) (img : ndarray) : result unit :=
  let p0 := pctdiff (nrows img) (fst (expected_size f)) in
  let p1 := pctdiff (ncols img) (snd (expected_size f)) in
  if negb (fle p0 (Fin (fst (size_tolerance f)))
           && fle p1 (Fin (snd (size_tolerance f))))
  then Raise StandardError
  else Ok tt.

(** ** Reference fit: [Form.fit_reference] *)

(** [fit == -9999] where [fit] is a Python list (of arrays) and [-9999]
    an int: neither operand is an array, so Python compares a list with an
    int, and the answer is the single boolean [False]. *)
Definition py_list_eq_int (fit : list (Z * Z)) (v : Z) : bool := false.

(** [num.ma.masked_array(fit, mask)] with a scalar mask: the mask is
    broadcast to every entry. *)
Definition broadcast_mask (mask : bool) (fit : list (Z * Z)) : list bool :=
  map (fun _ => mask) fit.

(** [num.mean(masked, axis=0)]: per component, the mean of the entries
    that are not masked; masked ([None]) when every entry is. *)
Definition ma_mean_axis0 (fit : list (Z * Z)) (mask : list bool) : option (Q * Q) :=
  let kept := map fst (filter (fun vm => negb (snd vm)) (combine fit mask)) in
  match kept with
  | [] => None
  | _ =>
      let n := Pos.of_nat (length kept) in
      Some (Qmake (Zsum (map fst kept)) n, Qmake (Zsum (map snd kept)) n)
  end.

(** [[center_on_box(bw_img, self.radius, self.min_ref, *ref) for ref in zone]] *)
Definition box_fits (f : Form) (bw_img : ndarray) (zone : list rect)
  : result (list (Z * Z)) :=
  mapM (fun ref : rect =>
          let '(xmin, xmax, ymin, ymax) := ref in
          center_on_box bw_img (radius f) (min_ref f) xmin xmax ymin ymax)
       zone.

(** [process_exam] calls the method when [refzone] is a list that is not
    empty; iterating over [None] is a [TypeError]. *)
Definition fit_reference (f : Form) (img : ndarray)
  : result ((Z * Z) * list (Z * Z)) :=
  let bw_img := binarize (contrast f) img in
  match refzone f with
  | None => Raise TypeError
  | Some zone =>
      fit <- box_fits f bw_img zone ;;
      let mask := broadcast_mask (py_list_eq_int fit na_val) fit in
      match ma_mean_axis0 fit mask with
      | None => Raise StandardError
      | Some (m0, m1) => Ok ((Qtrunc m0, Qtrunc m1), fit)
      end
  end.

(** ** Bubble analysis: [Form.get_bubble_means], [Form.choose_answers] *)

(** The loop over the product of the two ranges of [self.size] reads
    [self.coords[i, j, :]]; [coords] has the shape [size], being set by
    [calc_coords] only, so the loop visits the cells of [coords] row by
    row. *)
Definition get_bubble_means (f : Form) (img : ndarray) : list (list npfloat) :=
  let bw_img := binarize (contrast f) img in
  map (map (fun b : rect =>
              let '(i0, i1, j0, j1) := b in
              np_mean (flatten (np_slice bw_img (Some i0) (Some i1)
                                                (Some j0) (Some j1)))))
      (coords f).

(** [a[:, k]] on a list of rows. *)
Definition column (k : nat) (rows : list (list npfloat)) : result (list npfloat) :=
  mapM (fun row => match nth_error row k with
                   | Some x => Ok x
                   | None => Raise IndexError
                   end) rows.

Fixpoint zip_with {A B C : Type} (f : A -> B -> C) (l : list A) (m : list B) : list C :=
  match l, m with
  | x :: l', y :: m' => f x y :: zip_with f l' m'
  | _, _ => []
  end.

(** [choice[mask] = v] *)
Definition mask_assign (choice : list Z) (mask : list bool) (v : Z) : list Z :=
  zip_with (fun c (m : bool) => if m then v else c) choice mask.

(** [if self.signal:] *)
Definition truthy (s : Q) : bool := negb (Qeq_bool s 0).

Definition choose_answers (f : Form) (means : list (list npfloat)) : result (list Z) :=
  choice <- mapM (fun row => k <- np_argmin row ;; Ok (Z.of_nat k)) means ;;
  if truthy (signal f) then
    let sorted_rows := map np_sort means in
    s1 <- column 1 sorted_rows ;;
    s0 <- column 0 sorted_rows ;;
    let ratio := zip_with fdiv s1 s0 in
    Ok (mask_assign choice (map (fun r => fle r (Fin (signal f))) ratio) (-1)%Z)
  else Ok choice.

(** ** Diagnostics: overlays and written images *)

(** The image codec and the file system: [Form.load_image] (decoding,
    change of resolution, conversion to grey levels), the saving of an
    array as an image file, and the paths of the two files written. *)
Record Codec : Type := mkCodec {
  image_load : Form -> string -> result ndarray;
  image_save : ndarray -> string -> result unit;
  name_path : string -> string;
  val_path : string -> string
}.

(** [plus] of [overlay_ref_fit] *)
Definition plus (img : ndarray) (x y : Z) (val : Z) (r : Z) : ndarray :=
  let img := np_assign img (x - 1) x (y - r) (y + r) val in
  np_assign img (x - r) (x + r) (y - 1) y val.

Fixpoint zip3 {A B C : Type} (l : list A) (m : list B) (n : list C) : list (A * B * C) :=
  match l, m, n with
  | a :: l', b :: m', c :: n' => (a, b, c) :: zip3 l' m' n'
  | _, _, _ => []
  end.

Definition overlay_ref_fit (f : Form) (img : ndarray) (mean : Z * Z)
           (fit : list (Z * Z)) : result ndarray :=
  let off := 25%Z in
  let zone := match refzone f with Some l => l | None => [] end in
  if negb (length zone =? 4)%nat then Ok img
  else
    match ref_rc f with
    | None => Raise AttributeError
    | Some (rc0, rc1) =>
        let centers := [ (rc0 - off, rc1 - off); (rc0 - off, rc1 + off);
                         (rc0 + off, rc1 - off); (rc0 + off, rc1 + off) ]%Z in
        let img := plus img rc0 rc1 150 15 in
        let img := plus img (rc0 + fst mean) (rc1 + snd mean) 0 10 in
        Ok (fold_left
              (fun img (t : rect * (Z * Z) * (Z * Z)) =>
                 let '((x0, x1, y0, y1), (x_off, y_off), (cx, cy)) := t in
                 let img := plus img cx cy 120 15 in
                 let img := plus img (cx + x_off) (cy + y_off) 0 10 in
                 let img := plus img x0 y0 150 10 in
                 let img := plus img x1 y1 150 10 in
                 let img := plus img (x0 + x_off) (y0 + y_off) 0 10 in
                 plus img (x1 + x_off) (y1 + y_off) 0 10)%Z
              (zip3 zone fit centers) img)
    end.

(** The value a mean leaves in an integer pixel (a mean is NaN on an
    empty rectangle only, where no pixel is written). *)
Definition to_pixel (m : npfloat) : Z :=
  match m with Fin q => Qtrunc q | _ => 0%Z end.

Definition overlay_bubble_means (f : Form) (img : ndarray)
           (means : list (list npfloat)) : ndarray :=
  fold_left
    (fun img (bm : rect * npfloat) =>
       let '((i0, i1, j0, j1), m) := bm in
       np_assign img i0 i1 j0 j1 (to_pixel m))
    (combine (concat (coords f)) (concat means)) img.

Definition write_validation (io : Codec) (img : ndarray) (val_file : string)
  : result unit :=
  image_save io img val_file.

Definition write_info_image (io : Codec) (f : Form) (img : ndarray)
           (name_file : string) : result unit :=
  match info f with
  | None => Ok tt
  | Some (xmin, xmax, ymin, ymax) =>
      let nameimg :=
        np_rot90 (np_slice img (Some xmin) (Some xmax) (Some ymin) (Some ymax)) in
      nameimg <-
        match score f with
        | None => Ok nameimg
        | Some (xmin, xmax, ymin, ymax) =>
            let score :=
              np_rot90 (np_slice img (Some xmin) (Some xmax)
                                     (Some ymin) (Some ymax)) in
            np_hstack (np_slice nameimg (Some 30%Z) (Some 75%Z) None None) score
        end ;;
      image_save io nameimg name_file
  end.

(** ** The pipeline: [process_exam] *)

(** [if form.refzone:] *)
Definition refzone_set (f : Form) : bool :=
  match refzone f with
  | Some (_ :: _) => true
  | _ => false
  end.

Definition process_exam (io : Codec) (config : Form) (imfile : string)
  : result (list Z) :=
  let form := Form_init config in
  img <- image_load io form imfile ;;
  img <- trim_margins form img ;;
  check_size form img ;;;
  fi <- (if refzone_set form then
           mf <- fit_reference form img ;;
           let '(meanfit, fit) := mf in
           img <- overlay_ref_fit form img meanfit fit ;;
           Ok (set_offset form (fst meanfit) (snd meanfit), img)
         else Ok (form, img)) ;;
  let '(form, img) := fi in
  let bubble_means := get_bubble_means form img in
  choice <- choose_answers form bubble_means ;;
  let img := overlay_bubble_means form img bubble_means in
  write_info_image io form img (name_path io imfile) ;;;
  write_validation io img (val_path io imfile) ;;;
  Ok choice.

(** The class attributes of [Form], before any configuration. *)
Definition Form_default : Form :=
  {| size := (0, 0)%nat; offset := (0, 0)%Z; pos := (0, 0)%Z;
     bub := (0, 0)%Q; space := (0, 0)%Q;
     info := None; score := None; refzone := None;
     expected_dpi := (0, 0)%Z; expected_size := (0, 0)%Z;
     size_tolerance := (0, 0)%Q; refrc := (0, 0)%Z; ref_rc := None;
     contrast := 0%Q; trim_std := 0%Q; radius := 0%Z; min_ref := 0%Q;
     signal := 0%Q; coords := [] |}.

Definition with_signal (f : Form) (s : Q) : Form :=
  mkForm (size f) (offset f) (pos f) (bub f) (space f) (info f) (score f)
         (refzone f) (expected_dpi f) (expected_size f) (size_tolerance f)
         (refrc f) (ref_rc f) (contrast f) (trim_std f) (radius f)
         (min_ref f) s (coords f).

(** * Properties *)

(** ** Answer selection *)

(** [k] is the first position of the minimum of [row]. *)
Definition first_min (row : list Q) (k : nat) : Prop :=
  exists v, nth_error row k = Some v
    /\ (forall j x, nth_error row j = Some x -> v <= x)
    /\ (forall j x, nth_error row j = Some x -> (j < k)%nat -> v < x).

(** [a] and [b] are the smallest and the second smallest mean of [row]. *)
Definition two_darkest (row : list Q) (a b : Q) : Prop :=
  exists rest, Permutation (a :: b :: rest) row /\ a <= b /\ Forall (Qle b) rest.

(** The ratio [b / a] is defined and at most [s]. *)
Definition ambiguous (a b s : Q) : Prop := ~ a == 0 /\ b / a <= s.

Definition row_choice (s : Q) (row : list Q) (c : Z) : Prop :=
  exists k, first_min row k
    /\ (s == 0 -> c = Z.of_nat k)
    /\ (~ s == 0 ->
        exists a b, two_darkest row a b
          /\ (ambiguous a b s -> c = (-1)%Z)
          /\ (~ ambiguous a b s -> c = Z.of_nat k)).

(** A grid of two questions with two answer choices, one pixel per
    bubble, on a 2 x 2 image whose cell (0, 0) alone is dark. *)
Definition form_2x2 : Form :=
  {| size := (2, 2)%nat; offset := (0, 0)%Z; pos := (0, 0)%Z;
     bub := (1, 1)%Q; space := (1, 1)%Q;
     info := None; score := None; refzone := None;
     expected_dpi := (0, 0)%Z; expected_size := (2, 2)%Z;
     size_tolerance := (0, 0)%Q; refrc := (0, 0)%Z; ref_rc := None;
     contrast := 128%Q; trim_std := 0%Q; radius := 0%Z; min_ref := 0%Q;
     signal := 0%Q; coords := [] |}.

Definition img_2x2 : ndarray := of_rows [[0; 255]; [255; 255]]%Z.

(** ** Reference search *)

(** The order in which [center_on_box] reads its candidates: by column
    offset, then by row offset. *)
Definition scan_before (c c' : Z * Z) : Prop :=
  (snd c < snd c')%Z \/ (snd c = snd c' /\ (fst c < fst c')%Z).

(** The order of the spec: by distance to the origin, then by row, then
    by column. *)
Definition dist2 (c : Z * Z) : Z := (fst c * fst c + snd c * snd c)%Z.

Definition spec_before (c c' : Z * Z) : Prop :=
  (dist2 c < dist2 c')%Z
  \/ (dist2 c = dist2 c'
      /\ ((fst c < fst c')%Z \/ (fst c = fst c' /\ (snd c < snd c')%Z))).

(** [k] is the first position of the minimum of a row of floats. *)
Definition fmin_pos (l : list npfloat) (k : nat) : Prop :=
  exists v, nth_error l k = Some v
    /\ (forall j x, nth_error l j = Some x -> fle v x = true)
    /\ (forall j x, nth_error l j = Some x -> (j < k)%nat -> flt v x = true).

(** A mean of integer data is finite or NaN. *)
Definition is_mean (x : npfloat) : Prop :=
  match x with Fin _ | NaN => True | _ => False end.

(** A white 3 x 3 image with one black pixel, one row below the box
    [(1, 2, 1, 2)]. *)
Definition img_below : ndarray :=
  of_rows [[255; 255; 255]; [255; 255; 255]; [255; 0; 255]]%Z.

(** A black 3 x 3 image. *)
Definition img_dark : ndarray :=
  of_rows [[0; 0; 0]; [0; 0; 0]; [0; 0; 0]]%Z.

(** A 3 x 5 image with one dark pixel above the box [(1, 2, 1, 2)] and
    nothing dark near the box [(1, 2, 3, 4)]; and a blank one. *)
Definition img_one_box : ndarray :=
  of_rows [[200; 10; 200; 200; 200];
           [200; 200; 200; 200; 200];
           [200; 200; 200; 200; 200]]%Z.

Definition img_blank : ndarray :=
  of_rows [[200; 200; 200; 200; 200];
           [200; 200; 200; 200; 200];
           [200; 200; 200; 200; 200]]%Z.

Definition form_two_boxes : Form :=
  {| size := (0, 0)%nat; offset := (0, 0)%Z; pos := (0, 0)%Z;
     bub := (0, 0)%Q; space := (0, 0)%Q;
     info := None; score := None;
     refzone := Some [(1, 2, 1, 2); (1, 2, 3, 4)]%Z;
     expected_dpi := (0, 0)%Z; expected_size := (3, 5)%Z;
     size_tolerance := (0, 0)%Q; refrc := (0, 0)%Z; ref_rc := None;
     contrast := 128%Q; trim_std := 0%Q; radius := 1%Z; min_ref := 0%Q;
     signal := 0%Q; coords := [] |}.

Definition nan_to_inf (x : npfloat) : npfloat := if isnan x then PInf else x.

(** ** Size check *)


(** A form that expects images of 100 x 200 pixels, within 10 percent. *)
Definition form_100_200 : Form :=
  {| size := (0, 0)%nat; offset := (0, 0)%Z; pos := (0, 0)%Z;
     bub := (0, 0)%Q; space := (0, 0)%Q;
     info := None; score := None; refzone := None;
     expected_dpi := (0, 0)%Z; expected_size := (100, 200)%Z;
     size_tolerance := (1 # 10, 1 # 10); refrc := (0, 0)%Z; ref_rc := None;
     contrast := 0%Q; trim_std := 0%Q; radius := 0%Z; min_ref := 0%Q;
     signal := 0%Q; coords := [] |}.

Definition blank (h w : nat) : ndarray :=
  {| nrows := h; ncols := w; px := fun _ _ => 255%Z |}.

(** ** The pipeline *)

(** The statements of [process_exam] up to the size check. *)
Definition locate (io : Codec) (config : Form) (imfile : string)
  : result (Form * ndarray) :=
  let form := Form_init config in
  img <- image_load io form imfile ;;
  img <- trim_margins form img ;;
  check_size form img ;;;
  Ok (form, img).

(** The statements of [process_exam] up to the choice of the answers. *)
Definition analyse (io : Codec) (config : Form) (imfile : string)
  : result (Form * ndarray * list (list npfloat) * list Z) :=
  fi <- locate io config imfile ;;
  let '(form, img) := fi in
  fi <- (if refzone_set form then
           mf <- fit_reference form img ;;
           let '(meanfit, fit) := mf in
           img <- overlay_ref_fit form img meanfit fit ;;
           Ok (set_offset form (fst meanfit) (snd meanfit), img)
         else Ok (form, img)) ;;
  let '(form, img) := fi in
  let bubble_means := get_bubble_means form img in
  choice <- choose_answers form bubble_means ;;
  Ok (form, img, bubble_means, choice).

(** The statements of [process_exam] after the choice of the answers:
    overlay of the means, name image, validation image. *)
Definition render (io : Codec) (form : Form) (img : ndarray)
           (bubble_means : list (list npfloat)) (imfile : string) : result unit :=
  let img := overlay_bubble_means form img bubble_means in
  write_info_image io form img (name_path io imfile) ;;;
  write_validation io img (val_path io imfile).

(** One question with two answer choices on a 3 x 3 image, the first
    bubble filled; the name and the score rectangles have different
    heights.  The codec delivers the image and writes every file. *)
Definition img_one_question : ndarray :=
  of_rows [[0; 255; 255]; [255; 255; 255]; [255; 255; 255]]%Z.

Definition form_one_question : Form :=
  {| size := (1, 2)%nat; offset := (0, 0)%Z; pos := (0, 0)%Z;
     bub := (1, 1)%Q; space := (1, 1)%Q;
     info := Some (0, 2, 0, 2)%Z; score := Some (0, 1, 0, 1)%Z; refzone := None;
     expected_dpi := (0, 0)%Z; expected_size := (3, 3)%Z;
     size_tolerance := (0, 0)%Q; refrc := (0, 0)%Z; ref_rc := None;
     contrast := 128%Q; trim_std := 0%Q; radius := 0%Z; min_ref := 0%Q;
     signal := 0%Q; coords := [] |}.

Definition codec_ok : Codec :=
  {| image_load := fun _ _ => Ok img_one_question;
     image_save := fun _ _ => Ok tt;
     name_path := fun f => f;
     val_path := fun f => f |}.

(** * Further properties: definitions *)

(** Two arrays of the same shape that hold the same values. *)
Definition same_image (a b : ndarray) : Prop :=
  nrows a = nrows b /\ ncols a = ncols b
  /\ forall i j, (i < nrows a)%nat -> (j < ncols a)%nat -> px a i j = px b i j.

(** [a] is the rectangle of [b] whose first pixel is at row [top] and
    column [left]. *)
Definition window_at (top left : nat) (a b : ndarray) : Prop :=
  (top + nrows a <= nrows b)%nat /\ (left + ncols a <= ncols b)%nat
  /\ forall i j, (i < nrows a)%nat -> (j < ncols a)%nat ->
                 px a i j = px b (top + i) (left + j).

Definition window (a b : ndarray) : Prop :=
  exists top left, window_at top left a b.

(** The leading rows of the four quarter turns of an array: its last
    column, its last row, its first column and its first row. *)
Definition edges (a : ndarray) : list (result (list Z)) :=
  [ np_row0 (np_rot90 a);
    np_row0 (np_rot90 (np_rot90 a));
    np_row0 (np_rot90 (np_rot90 (np_rot90 a)));
    np_row0 (np_rot90 (np_rot90 (np_rot90 (np_rot90 a)))) ].

(** Four quarter turns. *)
Definition rot360 (a : ndarray) : ndarray :=
  np_rot90 (np_rot90 (np_rot90 (np_rot90 a))).

(** A form that trims edges of deviation below 1, and an image with a
    frame of constant grey around a checkerboard. *)
Definition form_trim : Form :=
  {| size := (0, 0)%nat; offset := (0, 0)%Z; pos := (0, 0)%Z;
     bub := (0, 0)%Q; space := (0, 0)%Q;
     info := None; score := None; refzone := None;
     expected_dpi := (0, 0)%Z; expected_size := (0, 0)%Z;
     size_tolerance := (0, 0)%Q; refrc := (0, 0)%Z; ref_rc := None;
     contrast := 0%Q; trim_std := 1%Q; radius := 0%Z; min_ref := 0%Q;
     signal := 0%Q; coords := [] |}.

Definition img_framed : ndarray :=
  of_rows [[9; 9; 9; 9]; [9; 0; 255; 9]; [9; 255; 0; 9]; [9; 9; 9; 9]]%Z.

(** Every pixel of the array has the value [c]. *)
Definition constant_image (c : Z) (a : ndarray) : Prop :=
  forall i j, (i < nrows a)%nat -> (j < ncols a)%nat -> px a i j = c.

(** A grid of 3 questions with 4 choices, cells of 2.5 x 3.5 pixels every
    10.25 and 12 pixels from (20, 30). *)
Definition form_grid : Form :=
  {| size := (3, 4)%nat; offset := (0, 0)%Z; pos := (20, 30)%Z;
     bub := (5 # 2, 7 # 2); space := (41 # 4, 12)%Q;
     info := None; score := None; refzone := None;
     expected_dpi := (0, 0)%Z; expected_size := (0, 0)%Z;
     size_tolerance := (0, 0)%Q; refrc := (0, 0)%Z; ref_rc := None;
     contrast := 0%Q; trim_std := 0%Q; radius := 0%Z; min_ref := 0%Q;
     signal := 0%Q; coords := [] |}.

(** A 3 x 5 image on which both boxes of [form_two_boxes] are found. *)
Definition img_two_boxes : ndarray :=
  of_rows [[200; 10; 200; 200; 200];
           [200; 200; 200; 10; 200];
           [200; 200; 200; 200; 200]]%Z.

(** The entry of a matrix given as a list of rows. *)
Definition entry {A : Type} (m : list (list A)) (i j : nat) : option A :=
  match nth_error m i with
  | Some row => nth_error row j
  | None => None
  end.

(** A mean of binarized pixels: NaN, or a value from 0 to 255. *)
Definition mean_in_range (m : npfloat) : Prop :=
  m = NaN \/ exists q, m = Fin q /\ 0 <= q <= 255.

(** A configuration whose last bubble column lies past the right edge
    of [img_2x2]. *)
Definition form_off_image : Form :=
  {| size := (2, 3)%nat; offset := (0, 0)%Z; pos := (0, 0)%Z;
     bub := (1, 1)%Q; space := (1, 1)%Q;
     info := None; score := None; refzone := None;
     expected_dpi := (0, 0)%Z; expected_size := (2, 2)%Z;
     size_tolerance := (0, 0)%Q; refrc := (0, 0)%Z; ref_rc := None;
     contrast := 128%Q; trim_std := 0%Q; radius := 0%Z; min_ref := 0%Q;
     signal := 0%Q; coords := [] |}.

(** The pixel [(i, j)] is in the part of the image that the assignment
    [img[x0:x1, y0:y1] = v] writes. *)
Definition written (img : ndarray) (b : rect) (i j : nat) : bool :=
  let '(x0, x1, y0, y1) := b in
  ((slice_index (nrows img) x0 <=? i) && (i <? slice_index (nrows img) x1)
   && (slice_index (ncols img) y0 <=? j) && (j <? slice_index (ncols img) y1))%nat.

(** A codec that delivers [img_2x2] and writes every file. *)
Definition codec_2x2 : Codec :=
  {| image_load := fun _ _ => Ok img_2x2;
     image_save := fun _ _ => Ok tt;
     name_path := fun f => f;
     val_path := fun f => f |}.


(** A form with one reference box and the default radius of zero. *)
Definition form_no_radius : Form :=
  {| size := (2, 2)%nat; offset := (0, 0)%Z; pos := (0, 0)%Z;
     bub := (1, 1)%Q; space := (1, 1)%Q;
     info := None; score := None; refzone := Some [(0, 1, 0, 1)%Z];
     expected_dpi := (0, 0)%Z; expected_size := (2, 2)%Z;
     size_tolerance := (0, 0)%Q; refrc := (0, 0)%Z; ref_rc := None;
     contrast := 128%Q; trim_std := 0%Q; radius := 0%Z; min_ref := 0%Q;
     signal := 0%Q; coords := [] |}.

(** Four reference boxes on a 2 x 2 image, a search radius of one pixel,
    and no [ref_rc] in the configuration. *)
Definition form_four_boxes : Form :=
  {| size := (2, 2)%nat; offset := (0, 0)%Z; pos := (0, 0)%Z;
     bub := (1, 1)%Q; space := (1, 1)%Q;
     info := None; score := None;
     refzone := Some [(0, 1, 0, 1); (0, 1, 0, 1); (0, 1, 0, 1); (0, 1, 0, 1)]%Z;
     expected_dpi := (0, 0)%Z; expected_size := (2, 2)%Z;
     size_tolerance := (0, 0)%Q; refrc := (0, 0)%Z; ref_rc := None;
     contrast := 128%Q; trim_std := 0%Q; radius := 1%Z; min_ref := 0%Q;
     signal := 0%Q; coords := [] |}.

(** ** Tactics *)

Ltac q_bool :=
  repeat match goal with
         | H : Qle_bool _ _ = true |- _ => apply Qle_bool_iff in H
         | H : Qle_bool _ _ = false |- _ =>
             apply not_true_iff_false in H; rewrite Qle_bool_iff in H;
             apply Qnot_le_lt in H
         | H : negb _ = true |- _ => apply negb_true_iff in H
         | H : negb _ = false |- _ => apply negb_false_iff in H
         end.

Ltac f_cases :=
  unfold fge in *; simpl in *; try discriminate; try reflexivity; q_bool.

(** ** Floats and [argmin] *)

Lemma Qle_bool_false_lt (a b : Q) : Qle_bool a b = false -> b < a.
Proof.
  intros H. apply Qnot_le_lt. intros Hle.
  apply Qle_bool_iff in Hle. congruence.
Qed.

Lemma fle_refl (x : npfloat) : isnan x = false -> fle x x = true.
Proof.
  destruct x; f_cases. intros _. apply Qle_bool_iff, Qle_refl.
Qed.

Lemma fle_trans (x y z : npfloat) :
  fle x y = true -> fle y z = true -> fle x z = true.
Proof.
  destruct x, y, z; intros H1 H2; f_cases.
  apply Qle_bool_iff. eapply Qle_trans; eassumption.
Qed.

Lemma flt_fle_trans (x y z : npfloat) :
  flt x y = true -> fle y z = true -> flt x z = true.
Proof.
  destruct x, y, z; intros H1 H2; f_cases.
  apply negb_true_iff. destruct (Qle_bool q1 q) eqn:E; [|reflexivity].
  q_bool. exfalso. apply (Qlt_irrefl q).
  eapply Qlt_le_trans; [eassumption|]. eapply Qle_trans; eassumption.
Qed.

Lemma flt_fle (x y : npfloat) : flt x y = true -> fle x y = true.
Proof.
  destruct x, y; intros H; f_cases.
  apply Qle_bool_iff, Qlt_le_weak. assumption.
Qed.

Lemma fge_false_flt (x m : npfloat) :
  isnan x = false -> isnan m = false -> fge x m = false -> flt x m = true.
Proof.
  destruct x, m; intros Hx Hm H; unfold fge in *; simpl in *;
    try discriminate; try reflexivity.
  rewrite H. reflexivity.
Qed.

Lemma fmin_pos_singleton (x : npfloat) : isnan x = false -> fmin_pos [x] 0.
Proof.
  intros Hx. exists x. split; [reflexivity|]. split.
  - intros [|j] y Hj; simpl in Hj.
    + injection Hj as <-. apply fle_refl. assumption.
    + destruct j; discriminate.
  - intros j y _ Hlt. lia.
Qed.

Lemma fmin_pos_keep (pre : list npfloat) (k : nat) (m x : npfloat) :
  nth_error pre k = Some m -> fmin_pos pre k -> fle m x = true ->
  fmin_pos (pre ++ [x]) k.
Proof.
  intros Hk (v & Hv & Hle & Hlt) Hmx.
  assert (v = m) by congruence. subst v.
  assert (Hklt : (k < length pre)%nat) by (apply nth_error_Some; congruence).
  exists m. split; [rewrite nth_error_app1; assumption|]. split.
  - intros j y Hj. destruct (Nat.lt_ge_cases j (length pre)) as [Hin|Hout].
    + rewrite nth_error_app1 in Hj by assumption. eauto.
    + rewrite nth_error_app2 in Hj by assumption.
      destruct (j - length pre)%nat as [|p]; simpl in Hj.
      * injection Hj as <-. assumption.
      * destruct p; discriminate.
  - intros j y Hj Hjk.
    rewrite nth_error_app1 in Hj by lia. eauto.
Qed.

Lemma fmin_pos_move (pre : list npfloat) (k : nat) (m x : npfloat) :
  nth_error pre k = Some m -> fmin_pos pre k ->
  isnan x = false -> flt x m = true ->
  fmin_pos (pre ++ [x]) (length pre).
Proof.
  intros Hk (v & Hv & Hle & Hlt) Hx Hxm.
  assert (v = m) by congruence. subst v.
  exists x. split.
  - rewrite nth_error_app2 by lia. rewrite Nat.sub_diag. reflexivity.
  - split.
    + intros j y Hj. destruct (Nat.lt_ge_cases j (length pre)) as [Hin|Hout].
      * rewrite nth_error_app1 in Hj by assumption.
        apply flt_fle. eapply flt_fle_trans; [exact Hxm|eauto].
      * rewrite nth_error_app2 in Hj by assumption.
        destruct (j - length pre)%nat as [|p]; simpl in Hj.
        -- injection Hj as <-. apply fle_refl. assumption.
        -- destruct p; discriminate.
    + intros j y Hj Hjk.
      rewrite nth_error_app1 in Hj by assumption.
      eapply flt_fle_trans; [exact Hxm|eauto].
Qed.

(** The scan of [argmin] over floats that are not NaN. *)
Lemma argmin_from_fmin_pos (l pre : list npfloat) (k : nat) (m : npfloat) :
  Forall (fun x => isnan x = false) l -> isnan m = false ->
  nth_error pre k = Some m -> fmin_pos pre k ->
  fmin_pos (pre ++ l) (argmin_from m k (length pre) l).
Proof.
  revert pre k m.
  induction l as [|x l IH]; intros pre k m Hl Hm Hk Hmin.
  - simpl. rewrite app_nil_r. assumption.
  - inversion Hl as [|? ? Hx Hl']; subst. simpl.
    replace (pre ++ x :: l) with ((pre ++ [x]) ++ l)
      by (rewrite <- app_assoc; reflexivity).
    replace (S (length pre)) with (length (pre ++ [x]))
      by (rewrite length_app; simpl; lia).
    destruct (fge x m) eqn:Hxm.
    + apply IH; try assumption.
      * rewrite nth_error_app1; [assumption|].
        apply nth_error_Some. congruence.
      * apply fmin_pos_keep with (m := m); assumption.
    + rewrite Hx.
      assert (Hnx : nth_error (pre ++ [x]) (length pre) = Some x).
      { rewrite nth_error_app2 by lia. rewrite Nat.sub_diag. reflexivity. }
      apply IH; try assumption.
      apply fmin_pos_move with (k := k) (m := m); try assumption.
      apply fge_false_flt; assumption.
Qed.

(** ** Answer selection *)

Example bubble_means_2x2 :
  get_bubble_means (Form_init form_2x2) img_2x2
  = [[Fin 0; Fin 255]; [Fin 255; Fin 255]].
Proof. reflexivity. Qed.

Example choose_2x2 :
  choose_answers (Form_init form_2x2)
                 (get_bubble_means (Form_init form_2x2) img_2x2)
  = Ok [0%Z; 0%Z].
Proof. reflexivity. Qed.

Example choose_ratio_below_threshold :
  choose_answers (with_signal Form_default (3 # 2)) [[Fin 12; Fin 10; Fin 200]]
  = Ok [(-1)%Z].
Proof. reflexivity. Qed.

Example choose_ratio_above_threshold :
  choose_answers (with_signal Form_default (9 # 10)) [[Fin 12; Fin 10; Fin 200]]
  = Ok [1%Z].
Proof. reflexivity. Qed.

Example choose_dark_bubble_keeps_choice :
  choose_answers (with_signal Form_default 2) [[Fin 0; Fin 255]] = Ok [0%Z].
Proof. reflexivity. Qed.

Example choose_one_column :
  choose_answers (with_signal Form_default 2) [[Fin 7]] = Raise IndexError.
Proof. reflexivity. Qed.

(** On finite means the first minimum of the floats is the first
    minimum of the rationals. *)
Lemma fmin_pos_fin (row : list Q) (k : nat) :
  fmin_pos (map Fin row) k -> first_min row k.
Proof.
  intros (v & Hv & Hle & Hlt). rewrite nth_error_map in Hv.
  destruct (nth_error row k) as [q|] eqn:Hq; [|discriminate].
  simpl in Hv. injection Hv as <-.
  exists q. split; [exact Hq|]. split.
  - intros j x Hj. apply Qle_bool_iff. apply (Hle j (Fin x)).
    rewrite nth_error_map, Hj. reflexivity.
  - intros j x Hj Hjk. apply Qle_bool_false_lt.
    apply negb_true_iff. apply (Hlt j (Fin x)); [|assumption].
    rewrite nth_error_map, Hj. reflexivity.
Qed.

Lemma np_argmin_first_min (row : list Q) :
  row <> [] ->
  exists k, np_argmin (map Fin row) = Ok k /\ first_min row k.
Proof.
  destruct row as [|x l]; [congruence|]. intros _.
  simpl. eexists. split; [reflexivity|].
  apply fmin_pos_fin.
  apply (argmin_from_fmin_pos (map Fin l) [Fin x] 0 (Fin x)).
  - apply Forall_forall. intros y Hy. apply in_map_iff in Hy.
    destruct Hy as (q & <- & _). reflexivity.
  - reflexivity.
  - reflexivity.
  - apply fmin_pos_singleton. reflexivity.
Qed.

Lemma np_insert_fin (x : Q) (l : list Q) :
  StronglySorted Qle l ->
  exists l', np_insert (Fin x) (map Fin l) = map Fin l'
    /\ Permutation l' (x :: l) /\ StronglySorted Qle l'.
Proof.
  induction l as [|y l IH]; intros Hs.
  - exists [x]. repeat split; auto. constructor; constructor.
  - inversion Hs as [|? ? Hs' Hall]; subst.
    simpl. unfold sort_lt; simpl. rewrite orb_false_r.
    destruct (Qle_bool y x) eqn:Hyx; simpl.
    + destruct (IH Hs') as (l' & Heq & Hperm & Hsorted).
      exists (y :: l'). rewrite Heq. split; [reflexivity|]. split.
      * rewrite Hperm. apply perm_swap.
      * constructor; [assumption|].
        apply Forall_forall. intros z Hz.
        apply (Permutation_in _ Hperm) in Hz. destruct Hz as [<-|Hz].
        -- apply Qle_bool_iff. assumption.
        -- rewrite Forall_forall in Hall. auto.
    + exists (x :: y :: l). split; [reflexivity|]. split; [reflexivity|].
      apply Qle_bool_false_lt in Hyx.
      constructor; [assumption|].
      constructor; [apply Qlt_le_weak; assumption|].
      apply Forall_forall. intros z Hz. rewrite Forall_forall in Hall.
      apply Qle_trans with y; [apply Qlt_le_weak; assumption|auto].
Qed.

Lemma np_sort_fin (l : list Q) :
  exists l', np_sort (map Fin l) = map Fin l'
    /\ Permutation l' l /\ StronglySorted Qle l'.
Proof.
  induction l as [|x l (l1 & Heq & Hperm & Hsorted)].
  - exists []. repeat split; auto. constructor.
  - simpl. rewrite Heq.
    destruct (np_insert_fin x l1 Hsorted) as (l2 & Heq2 & Hperm2 & Hsorted2).
    exists l2. split; [assumption|]. split; [|assumption].
    rewrite Hperm2. constructor. assumption.
Qed.

(** The first two entries of a sorted row of at least two finite means. *)
Lemma np_sort_two_darkest (row : list Q) :
  (2 <= length row)%nat ->
  exists a b rest, np_sort (map Fin row) = Fin a :: Fin b :: map Fin rest
    /\ two_darkest row a b.
Proof.
  intros Hlen.
  destruct (np_sort_fin row) as (l & Heq & Hperm & Hsorted).
  assert (Hl : length l = length row) by (apply Permutation_length; assumption).
  destruct l as [|a [|b rest]]; simpl in Hl; try lia.
  exists a, b, rest. split; [assumption|].
  exists rest. split; [assumption|].
  inversion Hsorted as [|? ? Hs1 Ha]; subst.
  inversion Hs1 as [|? ? Hs2 Hb]; subst.
  inversion Ha; subst. split; assumption.
Qed.

(** The ratio test of [choose_answers] on finite means. *)
Lemma ratio_test (a b s : Q) :
  a <= b ->
  (fle (fdiv (Fin b) (Fin a)) (Fin s) = true <-> ambiguous a b s).
Proof.
  intros Hab. unfold ambiguous, fdiv.
  destruct (Qeq_bool a 0) eqn:Ha.
  - apply Qeq_bool_iff in Ha.
    assert (Hb : Qsgn_neg b = false).
    { unfold Qsgn_neg. apply negb_false_iff. apply Qle_bool_iff.
      rewrite <- Ha. assumption. }
    rewrite Hb. split.
    + destruct (Qsgn_pos b); simpl; discriminate.
    + intros [Hne _]. contradiction.
  - simpl. rewrite Qle_bool_iff. split.
    + intros H. split; [|assumption].
      intros Heq. apply Qeq_bool_iff in Heq. congruence.
    + intros [_ H]. assumption.
Qed.

Lemma argmin_rows (means : list (list Q)) :
  (forall row, In row means -> row <> []) ->
  exists ks,
    mapM (fun row => k <- np_argmin row ;; Ok (Z.of_nat k)) (map (map Fin) means)
    = Ok (map Z.of_nat ks)
    /\ Forall2 first_min means ks.
Proof.
  induction means as [|row means IH]; intros Hne.
  - exists []. split; [reflexivity|constructor].
  - destruct IH as (ks & Heq & Hall); [intros; apply Hne; right; assumption|].
    destruct (@np_argmin_first_min row) as (k & Hk & Hmin);
      [apply Hne; left; reflexivity|].
    exists (k :: ks). split; [|constructor; assumption].
    cbn [map mapM]. rewrite Hk. cbn [bind]. rewrite Heq. reflexivity.
Qed.

Lemma column_cons (k : nat) (row : list npfloat) (rows : list (list npfloat)) :
  column k (row :: rows)
  = match nth_error row k with
    | Some x => ys <- column k rows ;; Ok (x :: ys)
    | None => Raise IndexError
    end.
Proof.
  unfold column. simpl. destruct (nth_error row k); reflexivity.
Qed.

Lemma sorted_columns (means : list (list Q)) :
  (forall row, In row means -> (2 <= length row)%nat) ->
  exists ab : list (Q * Q),
    column 1 (map np_sort (map (map Fin) means)) = Ok (map (fun p => Fin (snd p)) ab)
    /\ column 0 (map np_sort (map (map Fin) means)) = Ok (map (fun p => Fin (fst p)) ab)
    /\ Forall2 (fun row p => two_darkest row (fst p) (snd p)) means ab.
Proof.
  induction means as [|row means IH]; intros Hlen.
  - exists []. repeat split; constructor.
  - destruct IH as (ab & H1 & H0 & Hall); [intros; apply Hlen; right; assumption|].
    destruct (@np_sort_two_darkest row) as (a & b & rest & Hs & Htwo);
      [apply Hlen; left; reflexivity|].
    exists ((a, b) :: ab).
    cbn [map]. rewrite !column_cons, Hs, H1, H0.
    repeat split. constructor; assumption.
Qed.

Lemma mask_assign_rows (s : Q) (means : list (list Q)) (ks : list nat)
      (ab : list (Q * Q)) :
  ~ s == 0 ->
  Forall2 first_min means ks ->
  Forall2 (fun row p => two_darkest row (fst p) (snd p)) means ab ->
  Forall2 (row_choice s) means
    (mask_assign (map Z.of_nat ks)
       (map (fun r => fle r (Fin s))
            (zip_with fdiv (map (fun p => Fin (snd p)) ab)
                           (map (fun p => Fin (fst p)) ab)))
       (-1)%Z).
Proof.
  intros Hs Hk. revert ab.
  induction Hk as [|row k means ks Hmin Hk IH]; intros ab Hab.
  - inversion Hab; subst. constructor.
  - inversion Hab as [|? [a b] ? ab' Htwo Hab']; subst.
    simpl in Htwo. unfold mask_assign. cbn [map zip_with fst snd].
    constructor; [|apply IH; assumption].
    exists k. split; [assumption|]. split; [intros; contradiction|].
    intros _. exists a, b. split; [assumption|].
    destruct Htwo as (rest & _ & Hle & _).
    pose proof (@ratio_test a b s Hle) as Hr.
    destruct (fle (fdiv (Fin b) (Fin a)) (Fin s)).
    + split; [reflexivity|]. intros Hn. exfalso. apply Hn, Hr. reflexivity.
    + split; [|reflexivity]. intros Ha. apply Hr in Ha. discriminate.
Qed.

Lemma choose_answers_row_choice (f : Form) (means : list (list Q)) :
  (forall row, In row means -> row <> []) ->
  (~ signal f == 0 -> forall row, In row means -> (2 <= length row)%nat) ->
  exists choice,
    choose_answers f (map (map Fin) means) = Ok choice
    /\ Forall2 (row_choice (signal f)) means choice.
Proof.
  intros Hne Hlen. unfold choose_answers.
  destruct (argmin_rows means Hne) as (ks & Hks & Hmin). rewrite Hks. cbn [bind].
  unfold truthy. destruct (Qeq_bool (signal f) 0) eqn:Hsig; cbn [negb].
  - apply Qeq_bool_iff in Hsig.
    exists (map Z.of_nat ks). split; [reflexivity|].
    clear - Hmin Hsig. induction Hmin; constructor; auto.
    exists y. split; [assumption|]. split; [reflexivity|].
    intros Hn. contradiction.
  - assert (Hs : ~ signal f == 0).
    { intros H. apply Qeq_bool_iff in H. congruence. }
    destruct (sorted_columns means (Hlen Hs)) as (ab & H1 & H0 & Htwo).
    rewrite H1, H0. cbn [bind].
    eexists. split; [reflexivity|].
    apply mask_assign_rows; assumption.
Qed.








Lemma two_darkest_first_min (row : list Q) (a b : Q) (k : nat) :
  two_darkest row a b -> first_min row k ->
  exists v, nth_error row k = Some v /\ v == a.
Proof.
  intros (rest & Hp & Hab & Hrest) (v & Hv & Hle & _).
  exists v. split; [assumption|]. apply Qle_antisym.
  - assert (Hin : In a row) by (apply (Permutation_in _ Hp); left; reflexivity).
    apply In_nth_error in Hin. destruct Hin as (j & Hj). eauto.
  - assert (Hin : In v (a :: b :: rest)).
    { apply Permutation_in with (l := row); [symmetry; assumption|].
      eapply nth_error_In; eassumption. }
    rewrite Forall_forall in Hrest.
    destruct Hin as [<-|[<-|Hin]]; [apply Qle_refl|assumption|].
    apply Qle_trans with b; auto.
Qed.




(** ** Reference search *)

Example search_coords_1 : search_coords 1 = [(0, -1); (-1, 0); (0, 0)]%Z.
Proof. reflexivity. Qed.

Example center_below : center_on_box img_below 1 0 1 2 1 2 = Ok (na_val, na_val).
Proof. vm_compute. reflexivity. Qed.

Example center_dark : center_on_box img_dark 1 0 1 2 1 2 = Ok (0, -1)%Z.
Proof. vm_compute. reflexivity. Qed.

Example fit_one_box :
  fit_reference form_two_boxes img_one_box
  = Ok ((-5000, -4999)%Z, [(-1, 0); (na_val, na_val)]%Z).
Proof. vm_compute. reflexivity. Qed.

Example fit_blank :
  fit_reference form_two_boxes img_blank
  = Ok ((-9999, -9999)%Z, [(na_val, na_val); (na_val, na_val)]).
Proof. vm_compute. reflexivity. Qed.

Lemma fmin_nan_spec (acc y : npfloat) :
  is_mean acc -> is_mean y ->
  let m := fmin_nan acc y in
  is_mean m
  /\ (isnan acc = false -> fle m acc = true)
  /\ (isnan y = false -> fle m y = true)
  /\ (m = acc \/ m = y)
  /\ (isnan m = true -> isnan acc = true /\ isnan y = true).
Proof.
  destruct acc as [a| | |], y as [b| | |]; simpl; try contradiction; intros _ _;
    unfold fmin_nan; simpl.
  - destruct (Qle_bool a b) eqn:E; simpl; rewrite ?E;
      repeat split; auto; try discriminate; intros _;
      try (apply Qle_bool_iff, Qle_refl).
    apply Qle_bool_iff, Qlt_le_weak, Qle_bool_false_lt, E.
  - repeat split; auto; try discriminate; intros _.
    apply Qle_bool_iff, Qle_refl.
  - repeat split; auto; try discriminate; intros _.
    apply Qle_bool_iff, Qle_refl.
  - repeat split; auto; discriminate.
Qed.

Lemma nanmin_fold (l : list npfloat) (acc : npfloat) :
  is_mean acc -> Forall is_mean l ->
  let m := fold_left fmin_nan l acc in
  is_mean m
  /\ (isnan acc = false -> fle m acc = true)
  /\ (forall y, In y l -> isnan y = false -> fle m y = true)
  /\ (m = acc \/ In m l)
  /\ (isnan m = true ->
      isnan acc = true /\ forall y, In y l -> isnan y = true).
Proof.
  revert acc. induction l as [|y l IH]; intros acc Hacc Hl; simpl.
  - repeat split; auto; try (intros y []; fail).
    intros H. apply fle_refl. assumption.
  - inversion Hl as [|? ? Hy Hl']; subst.
    destruct (fmin_nan_spec acc y Hacc Hy) as (Hm & Ha & Hb & Hor & Hnan).
    destruct (IH (fmin_nan acc y) Hm Hl') as (Hm' & Ha' & Hl'' & Hor' & Hnan').
    split; [assumption|].
    assert (Hdown : isnan (fmin_nan acc y) = false ->
                    fle (fold_left fmin_nan l (fmin_nan acc y)) (fmin_nan acc y)
                    = true) by exact Ha'.
    assert (Hnn : forall z, isnan z = false -> fle (fmin_nan acc y) z = true ->
                            isnan (fmin_nan acc y) = false).
    { intros z _ H. destruct (fmin_nan acc y); simpl in *; congruence. }
    repeat split.
    + intros Hna. eapply fle_trans; [apply Hdown|apply Ha; assumption].
      apply (Hnn acc Hna). apply Ha. assumption.
    + intros z [<-|Hz] Hnz.
      * eapply fle_trans; [apply Hdown|apply Hb; assumption].
        apply (Hnn y Hnz). apply Hb. assumption.
      * apply Hl''; assumption.
    + destruct Hor' as [->|Hin]; [|right; right; assumption].
      destruct Hor as [->| ->]; [left; reflexivity|right; left; reflexivity].
    + apply Hnan' in H. destruct H as [H _]. apply Hnan in H. tauto.
    + intros z [<-|Hz].
      * apply Hnan' in H. destruct H as [H _]. apply Hnan in H. tauto.
      * apply Hnan' in H. destruct H as [_ H]. auto.
Qed.


Lemma nan_to_inf_not_nan (l : list npfloat) :
  Forall (fun x => isnan x = false) (map nan_to_inf l).
Proof.
  apply Forall_forall. intros x Hx. apply in_map_iff in Hx.
  destruct Hx as (y & <- & _). destruct y; reflexivity.
Qed.

Lemma forallb_isnan_false (l : list npfloat) (y : npfloat) :
  In y l -> isnan y = false -> forallb isnan l = false.
Proof.
  intros Hin Hy. destruct (forallb isnan l) eqn:E; [|reflexivity].
  rewrite forallb_forall in E. rewrite (E y Hin) in Hy. discriminate.
Qed.

(** [nanargmin] on means: the first position of the minimum of the
    entries that are not NaN. *)
Lemma nanargmin_spec (l : list npfloat) :
  Forall is_mean l ->
  (exists y, In y l /\ isnan y = false) ->
  exists k v,
    np_nanargmin l = Ok k /\ nth_error l k = Some v /\ isnan v = false
    /\ (forall j y, nth_error l j = Some y -> isnan y = true \/ fle v y = true)
    /\ (forall j y, nth_error l j = Some y -> (j < k)%nat ->
                    isnan y = true \/ flt v y = true).
Proof.
  intros Hmean (y0 & Hin0 & Hy0).
  unfold np_nanargmin. rewrite (forallb_isnan_false l y0 Hin0 Hy0).
  change (fun x : npfloat => if isnan x then PInf else x) with nan_to_inf.
  destruct l as [|x l]; [destruct Hin0|].
  assert (Hpos : fmin_pos (map nan_to_inf (x :: l))
                   (argmin_from (nan_to_inf x) 0 1 (map nan_to_inf l))).
  { pose proof (nan_to_inf_not_nan (x :: l)) as Hnn.
    inversion Hnn as [|? ? Hx Hl]; subst.
    apply (argmin_from_fmin_pos (map nan_to_inf l) [nan_to_inf x] 0
             (nan_to_inf x)); try assumption; [reflexivity|].
    apply fmin_pos_singleton. assumption. }
  cbn [map np_argmin].
  replace (isnan (nan_to_inf x)) with false by (destruct x; reflexivity).
  destruct Hpos as (v' & Hv' & Hle & Hlt).
  set (k := argmin_from (nan_to_inf x) 0 1 (map nan_to_inf l)) in *.
  rewrite nth_error_map in Hv'.
  destruct (nth_error (x :: l) k) as [v|] eqn:Hv; [|discriminate].
  simpl in Hv'. injection Hv' as <-.
  assert (Hvfin : isnan v = false).
  { apply In_nth_error in Hin0. destruct Hin0 as (j0 & Hj0).
    assert (H0 : fle (nan_to_inf v) (nan_to_inf y0) = true).
    { apply (Hle j0). rewrite nth_error_map, Hj0. reflexivity. }
    assert (Hm0 : is_mean y0).
    { rewrite Forall_forall in Hmean. apply Hmean.
      eapply nth_error_In; eassumption. }
    destruct v; try reflexivity.
    destruct y0; simpl in *; try discriminate; contradiction. }
  assert (Hvv : nan_to_inf v = v) by (unfold nan_to_inf; rewrite Hvfin; reflexivity).
  exists k, v. split; [reflexivity|]. split; [exact Hv|].
  split; [assumption|]. split.
  - intros j y Hj. destruct (isnan y) eqn:Hy; [left; reflexivity|right].
    rewrite <- Hvv. replace y with (nan_to_inf y)
      by (unfold nan_to_inf; rewrite Hy; reflexivity).
    apply (Hle j). rewrite nth_error_map, Hj. reflexivity.
  - intros j y Hj Hjk. destruct (isnan y) eqn:Hy; [left; reflexivity|right].
    rewrite <- Hvv. replace y with (nan_to_inf y)
      by (unfold nan_to_inf; rewrite Hy; reflexivity).
    apply (Hlt j); [|assumption]. rewrite nth_error_map, Hj. reflexivity.
Qed.

(** *** The candidates of the search and their order *)

Section SortedLists.
Context {A : Type} (R : A -> A -> Prop).

Lemma StronglySorted_app (l m : list A) :
  StronglySorted R l -> StronglySorted R m ->
  (forall x y, In x l -> In y m -> R x y) ->
  StronglySorted R (l ++ m).
Proof.
  induction l as [|a l IH]; intros Hl Hm Hlm; simpl; [assumption|].
  inversion Hl as [|? ? Hl' Ha]; subst. constructor.
  - apply IH; [assumption|assumption|].
    intros x y Hx Hy. apply Hlm; [right; assumption|assumption].
  - apply Forall_app. split; [assumption|].
    apply Forall_forall. intros y Hy. apply Hlm; [left; reflexivity|assumption].
Qed.

Lemma StronglySorted_filter (p : A -> bool) (l : list A) :
  StronglySorted R l -> StronglySorted R (filter p l).
Proof.
  induction 1 as [|a l Hl IH Ha]; simpl; [constructor|].
  destruct (p a); [|assumption]. constructor; [assumption|].
  apply Forall_forall. intros y Hy. apply filter_In in Hy.
  rewrite Forall_forall in Ha. apply Ha. tauto.
Qed.

(** In a sorted list an entry at a smaller position is related to an
    entry at a larger one. *)
Lemma StronglySorted_nth (l : list A) (j k : nat) (x y : A) :
  StronglySorted R l -> (j < k)%nat ->
  nth_error l j = Some x -> nth_error l k = Some y -> R x y.
Proof.
  intros Hl. revert j k. induction Hl as [|a l Hl IH Ha]; intros j k Hjk Hj Hk.
  - destruct j; discriminate.
  - destruct k as [|k]; [lia|]. simpl in Hk. destruct j as [|j]; simpl in Hj.
    + injection Hj as <-. rewrite Forall_forall in Ha. apply Ha.
      eapply nth_error_In; eassumption.
    + apply (IH j k); [lia|assumption|assumption].
Qed.
End SortedLists.

Lemma np_arange_In (a b i : Z) : In i (np_arange a b) <-> (a <= i < b)%Z.
Proof.
  unfold np_arange. rewrite in_map_iff. split.
  - intros (k & <- & Hk). apply in_seq in Hk. lia.
  - intros H. exists (Z.to_nat (i - a)). split; [lia|]. apply in_seq. lia.
Qed.

Lemma np_arange_sorted (a b : Z) : StronglySorted Z.lt (np_arange a b).
Proof.
  unfold np_arange. generalize (Z.to_nat (b - a)) as n. generalize 0%nat as s.
  intros s n. revert s. induction n as [|n IH]; intros s; simpl; constructor.
  - apply IH.
  - apply Forall_forall. intros y Hy. apply in_map_iff in Hy.
    destruct Hy as (k & <- & Hk). apply in_seq in Hk. lia.
Qed.

Lemma meshgrid_zip_In (a b : list Z) (i j : Z) :
  In (i, j) (meshgrid_zip a b) <-> In i a /\ In j b.
Proof.
  unfold meshgrid_zip. rewrite in_flat_map. split.
  - intros (j' & Hj & Hin). apply in_map_iff in Hin.
    destruct Hin as (i' & Heq & Hi). injection Heq as <- <-. tauto.
  - intros [Hi Hj]. exists j. split; [assumption|].
    apply in_map_iff. exists i. tauto.
Qed.

Lemma meshgrid_zip_sorted (a b : list Z) :
  StronglySorted Z.lt a -> StronglySorted Z.lt b ->
  StronglySorted scan_before (meshgrid_zip a b).
Proof.
  intros Ha Hb. unfold meshgrid_zip.
  induction Hb as [|j b Hb IH Hj]; simpl; [constructor|].
  apply StronglySorted_app; [|assumption|].
  - clear - Ha. induction Ha as [|i a Ha IH Hi]; simpl; constructor; [assumption|].
    apply Forall_forall. intros c Hc. apply in_map_iff in Hc.
    destruct Hc as (i' & <- & Hi'). rewrite Forall_forall in Hi.
    right. simpl. split; [reflexivity|auto].
  - intros c c' Hc Hc'. apply in_map_iff in Hc. destruct Hc as (i & <- & _).
    apply in_flat_map in Hc'. destruct Hc' as (j' & Hj' & Hc').
    apply in_map_iff in Hc'. destruct Hc' as (i' & <- & _).
    left. simpl. rewrite Forall_forall in Hj. auto.
Qed.

(** The candidates are the offsets of the half-open square
    [-radius .. radius - 1] that lie in the disc. *)
Lemma search_coords_In (r i j : Z) :
  In (i, j) (search_coords r)
  <-> (- r <= i < r)%Z /\ (- r <= j < r)%Z /\ (i * i + j * j <= r * r)%Z.
Proof.
  unfold search_coords. rewrite filter_In, meshgrid_zip_In, !np_arange_In.
  unfold in_radius. rewrite Z.leb_le. tauto.
Qed.

Lemma search_coords_sorted (r : Z) : StronglySorted scan_before (search_coords r).
Proof.
  apply StronglySorted_filter, meshgrid_zip_sorted; apply np_arange_sorted.
Qed.

Lemma scan_before_irrefl (c : Z * Z) : ~ scan_before c c.
Proof. unfold scan_before. lia. Qed.

Lemma scan_before_asym (c c' : Z * Z) : scan_before c c' -> ~ scan_before c' c.
Proof. unfold scan_before. lia. Qed.

Lemma box_mean_is_mean (img : ndarray) (xmin xmax ymin ymax : Z) (c : Z * Z) :
  is_mean (box_mean img xmin xmax ymin ymax c).
Proof.
  unfold box_mean. destruct c as [i j]. unfold np_mean.
  destruct (flatten _); exact I.
Qed.

Lemma nanmin_le (fit : list npfloat) (y : npfloat) :
  Forall is_mean fit -> In y fit -> isnan y = false ->
  exists m, np_nanmin fit = Ok m /\ fle m y = true.
Proof.
  intros Hmean Hin Hy. destruct fit as [|x l]; [destruct Hin|].
  inversion Hmean as [|? ? Hx Hl]; subst.
  destruct (nanmin_fold l x Hx Hl) as (_ & Hacc & Hall & _).
  exists (fold_left fmin_nan l x). split; [reflexivity|].
  destruct Hin as [->|Hin]; auto.
Qed.

(** C4, as the code has it.  When some candidate offset has a mean of at
    most [min_ref], the search returns a candidate of minimum mean, and
    among the candidates of that mean the first one read: every candidate
    that comes before it, by column offset and then by row offset, has a
    mean that is strictly larger (or none, its window being empty). *)
Theorem center_on_box_first_read (img : ndarray) (radius : Z) (min_ref : Q)
        (xmin xmax ymin ymax : Z) (c0 : Z * Z) :
  let bm := box_mean img xmin xmax ymin ymax in
  In c0 (search_coords radius) ->
  fle (bm c0) (Fin min_ref) = true ->
  exists c,
    center_on_box img radius min_ref xmin xmax ymin ymax = Ok c
    /\ In c (search_coords radius)
    /\ fle (bm c) (Fin min_ref) = true
    /\ (forall c', In c' (search_coords radius) ->
                   isnan (bm c') = true \/ fle (bm c) (bm c') = true)
    /\ (forall c', In c' (search_coords radius) -> scan_before c' c ->
                   isnan (bm c') = true \/ flt (bm c) (bm c') = true).
Proof.
  intros bm Hin0 Hle0. unfold center_on_box. fold bm.
  set (cs := search_coords radius) in *.
  assert (Hmean : Forall is_mean (map bm cs)).
  { apply Forall_forall. intros y Hy. apply in_map_iff in Hy.
    destruct Hy as (c & <- & _). apply box_mean_is_mean. }
  assert (Hnn0 : isnan (bm c0) = false).
  { destruct (bm c0); simpl in *; congruence. }
  assert (Hfit0 : In (bm c0) (map bm cs)) by (apply in_map; assumption).
  destruct (nanmin_le (map bm cs) (bm c0) Hmean Hfit0 Hnn0) as (m & Hm & Hmle).
  rewrite Hm. cbn [bind].
  rewrite (fle_trans m (bm c0) (Fin min_ref) Hmle Hle0).
  destruct (nanargmin_spec (map bm cs) Hmean)
    as (k & v & Hk & Hv & Hvn & Hall & Hbefore).
  { exists (bm c0). split; assumption. }
  rewrite Hk. cbn [bind].
  rewrite nth_error_map in Hv.
  destruct (nth_error cs k) as [c|] eqn:Hc; [|discriminate].
  simpl in Hv. injection Hv as <-.
  assert (Hat : forall c', In c' cs -> exists j, nth_error cs j = Some c'
                 /\ nth_error (map bm cs) j = Some (bm c')).
  { intros c' Hc'. apply In_nth_error in Hc'. destruct Hc' as (j & Hj).
    exists j. split; [assumption|]. rewrite nth_error_map, Hj. reflexivity. }
  exists c. split; [reflexivity|]. split; [eapply nth_error_In; eassumption|].
  split; [|split].
  - destruct (Hat c0 Hin0) as (j & _ & Hj).
    destruct (Hall j _ Hj) as [H|H]; [congruence|].
    eapply fle_trans; eassumption.
  - intros c' Hc'. destruct (Hat c' Hc') as (j & _ & Hj). eauto.
  - intros c' Hc' Hscan. destruct (Hat c' Hc') as (j & Hj & Hfj).
    destruct (Nat.lt_trichotomy j k) as [Hlt|[Heq|Hgt]].
    + eauto.
    + subst j. assert (c' = c) by congruence. subst c'.
      exfalso. apply (scan_before_irrefl c). assumption.
    + exfalso. apply (scan_before_asym c' c Hscan).
      apply (StronglySorted_nth scan_before cs k j c c');
        [apply search_coords_sorted|assumption|assumption|assumption].
Qed.

Lemma center_on_box_first_read_witness :
  exists c,
    center_on_box img_dark 1 0 1 2 1 2 = Ok c
    /\ In c (search_coords 1)
    /\ fle (box_mean img_dark 1 2 1 2 c) (Fin 0) = true
    /\ (forall c', In c' (search_coords 1) ->
                   isnan (box_mean img_dark 1 2 1 2 c') = true
                   \/ fle (box_mean img_dark 1 2 1 2 c)
                          (box_mean img_dark 1 2 1 2 c') = true)
    /\ (forall c', In c' (search_coords 1) -> scan_before c' c ->
                   isnan (box_mean img_dark 1 2 1 2 c') = true
                   \/ flt (box_mean img_dark 1 2 1 2 c)
                          (box_mean img_dark 1 2 1 2 c') = true).
Proof.
  apply (center_on_box_first_read img_dark 1 0 1 2 1 2 (0, 0)%Z).
  - vm_compute. right; right; left; reflexivity.
  - vm_compute. reflexivity.
Defined.

(** C4, as the spec has it, fails: on a black image every candidate has
    the mean 0; the search returns [(0, -1)], the first candidate it
    reads, although [(0, 0)] comes first by distance to the origin. *)
Lemma center_on_box_tie_not_nearest :
  center_on_box img_dark 1 0 1 2 1 2 = Ok (0, -1)%Z
  /\ In (0, 0)%Z (search_coords 1)
  /\ box_mean img_dark 1 2 1 2 (0, 0)%Z = box_mean img_dark 1 2 1 2 (0, -1)%Z
  /\ spec_before (0, 0)%Z (0, -1)%Z
  /\ ~ (forall c c',
          center_on_box img_dark 1 0 1 2 1 2 = Ok c ->
          In c' (search_coords 1) ->
          box_mean img_dark 1 2 1 2 c' = box_mean img_dark 1 2 1 2 c ->
          ~ spec_before c' c).
Proof.
  assert (Hret : center_on_box img_dark 1 0 1 2 1 2 = Ok (0, -1)%Z)
    by (vm_compute; reflexivity).
  assert (Hin : In (0, 0)%Z (search_coords 1)) by (vm_compute; tauto).
  assert (Htie : box_mean img_dark 1 2 1 2 (0, 0)%Z
                 = box_mean img_dark 1 2 1 2 (0, -1)%Z)
    by (vm_compute; reflexivity).
  assert (Hbefore : spec_before (0, 0)%Z (0, -1)%Z)
    by (left; vm_compute; reflexivity).
  repeat split; try assumption.
  intros H. exact (H (0, -1)%Z (0, 0)%Z Hret Hin Htie Hbefore).
Qed.

(** C3.  For every radius the candidates are the offsets of the disc
    with both components in [-radius .. radius - 1]: the offsets
    [(radius, 0)] and [(0, radius)], at distance [radius] from the
    origin, are left out.  With radius 1 the search reads [(0, -1)],
    [(-1, 0)], [(0, 0)]; on an image whose only dark pixel is one row
    below the box, the offset [(1, 0)] has the mean 0, within [min_ref],
    and the search reports no match. *)
Theorem center_on_box_misses_radius :
  (forall r, (0 < r)%Z ->
     in_radius r (r, 0%Z) = true /\ in_radius r (0%Z, r) = true
     /\ ~ In (r, 0%Z) (search_coords r) /\ ~ In (0%Z, r) (search_coords r))
  /\ search_coords 1 = [(0, -1); (-1, 0); (0, 0)]%Z
  /\ box_mean img_below 1 2 1 2 (1, 0)%Z = Fin 0
  /\ center_on_box img_below 1 0 1 2 1 2 = Ok (na_val, na_val).
Proof.
  split.
  - intros r Hr. unfold in_radius. rewrite !Z.leb_le, !search_coords_In. lia.
  - repeat split; vm_compute; reflexivity.
Qed.

Lemma unmasked_all (fit : list (Z * Z)) :
  map fst (filter (fun vm : Z * Z * bool => negb (snd vm))
                  (combine fit (broadcast_mask false fit))) = fit.
Proof.
  unfold broadcast_mask. induction fit as [|c fit IH]; [reflexivity|].
  simpl. rewrite IH. reflexivity.
Qed.

(** A box without a candidate of mean at most [min_ref] gives the
    sentinel. *)
Lemma center_on_box_no_match (img : ndarray) (radius : Z) (min_ref : Q)
      (xmin xmax ymin ymax : Z) :
  (0 < radius)%Z ->
  (forall c, In c (search_coords radius) ->
             fle (box_mean img xmin xmax ymin ymax c) (Fin min_ref) = false) ->
  center_on_box img radius min_ref xmin xmax ymin ymax = Ok (na_val, na_val).
Proof.
  intros Hr Hnone. unfold center_on_box.
  set (bm := box_mean img xmin xmax ymin ymax) in *.
  assert (Hin0 : In (0, 0)%Z (search_coords radius))
    by (apply search_coords_In; lia).
  destruct (search_coords radius) as [|c cs] eqn:Hcs; [destruct Hin0|].
  cbn [map np_nanmin bind].
  assert (Hmean : Forall is_mean (map bm cs)).
  { apply Forall_forall. intros y Hy. apply in_map_iff in Hy.
    destruct Hy as (c' & <- & _). apply box_mean_is_mean. }
  destruct (nanmin_fold (map bm cs) (bm c) (box_mean_is_mean _ _ _ _ _ c) Hmean)
    as (_ & _ & _ & Hor & _).
  assert (Hm : exists c', In c' (c :: cs)
                          /\ fold_left fmin_nan (map bm cs) (bm c) = bm c').
  { destruct Hor as [->|Hin]; [exists c; split; [left|]; reflexivity|].
    apply in_map_iff in Hin. destruct Hin as (c' & <- & Hc').
    exists c'. split; [right; assumption|reflexivity]. }
  destruct Hm as (c' & Hc' & ->). rewrite (Hnone c' Hc'). reflexivity.
Qed.

(** [fit_reference] masks nothing: the offset is the truncated mean over
    all boxes, sentinels included, and no error is raised. *)
Lemma fit_reference_unmasked (f : Form) (img : ndarray) (zone : list rect)
      (fit : list (Z * Z)) :
  refzone f = Some zone ->
  box_fits f (binarize (contrast f) img) zone = Ok fit ->
  fit <> [] ->
  fit_reference f img
  = Ok ((Qtrunc (Zsum (map fst fit) # Pos.of_nat (length fit)),
         Qtrunc (Zsum (map snd fit) # Pos.of_nat (length fit))), fit).
Proof.
  intros Hzone Hfit Hne. unfold fit_reference.
  rewrite Hzone, Hfit. cbn [bind].
  unfold py_list_eq_int, ma_mean_axis0. rewrite unmasked_all.
  destruct fit; [congruence|reflexivity].
Qed.

(** C5.  A box none of whose candidates has a mean within [min_ref]
    gives the sentinel.  But [fit_reference] masks no entry: whatever
    the boxes of the form give, its offset is the truncated mean over all
    of them, sentinels included, and it raises no error of its own.  With
    two boxes of which
    one only is found, at [(-1, 0)], the sentinel [(-9999, -9999)] of the
    other is averaged into the offset; when no box is found the sentinel
    itself is the offset. *)
Theorem fit_reference_averages_sentinel :
  (forall img radius min_ref xmin xmax ymin ymax,
      (0 < radius)%Z ->
      (forall c, In c (search_coords radius) ->
                 fle (box_mean img xmin xmax ymin ymax c) (Fin min_ref) = false) ->
      center_on_box img radius min_ref xmin xmax ymin ymax = Ok (na_val, na_val))
  /\ (forall f img zone fit,
        refzone f = Some zone ->
        box_fits f (binarize (contrast f) img) zone = Ok fit ->
        fit <> [] ->
        fit_reference f img
        = Ok ((Qtrunc (Zsum (map fst fit) # Pos.of_nat (length fit)),
               Qtrunc (Zsum (map snd fit) # Pos.of_nat (length fit))), fit))
  /\ fit_reference form_two_boxes img_one_box
     = Ok ((-5000, -4999)%Z, [(-1, 0)%Z; (na_val, na_val)])
  /\ fit_reference form_two_boxes img_blank
     = Ok ((na_val, na_val), [(na_val, na_val); (na_val, na_val)]).
Proof.
  split; [exact center_on_box_no_match|].
  split; [exact fit_reference_unmasked|].
  split; vm_compute; reflexivity.
Qed.

(** ** Margin trimming *)

Example trim_uniform_image :
  trim_loop 5 1 (0, 0)%nat (of_rows [[7; 7]; [7; 7]]%Z) = Some (Raise IndexError).
Proof. vm_compute. reflexivity. Qed.

Example trim_framed_image :
  option_map (fun r => match r with Ok a => Ok (to_rows a) | Raise e => Raise e end)
             (trim_loop 9 1 (0, 0)%nat
                (of_rows [[9; 9; 9; 9]; [9; 0; 255; 9]; [9; 255; 0; 9]; [9; 9; 9; 9]]%Z))
  = Some (Ok [[0; 255]; [255; 0]]%Z).
Proof. vm_compute. reflexivity. Qed.

(** One edge: the array is turned, and loses its leading row or not; the
    only error is the [IndexError] of an array without columns. *)
Lemma trim_edge_shape (t : Q) (img : ndarray) :
  match trim_edge t img with
  | Ok img' =>
      (0 < ncols img)%nat /\ ncols img' = nrows img
      /\ (nrows img' = ncols img \/ nrows img' = (ncols img - 1)%nat)
  | Raise e => e = IndexError /\ ncols img = 0%nat
  end.
Proof.
  unfold trim_edge, np_row0. cbn [np_rot90 nrows ncols].
  destruct (ncols img) as [|w] eqn:Hw; cbn [bind]; [split; reflexivity|].
  match goal with |- context [np_std_lt ?r t] => destruct (np_std_lt r t) end;
    cbn [np_slice np_rot90 nrows ncols slice_start slice_stop];
    rewrite ?Hw.
  - split; [lia|]. split; [lia|]. right. unfold slice_index.
    change (1 <? 0)%Z with false. cbv iota. lia.
  - split; [lia|]. split; [reflexivity|]. left. reflexivity.
Qed.

(** One pass over the four edges: it raises only [IndexError], and an
    array that comes out of it had no empty side and has grown on none. *)
Lemma trim_pass_shape (t : Q) (img : ndarray) :
  match trim_pass t img with
  | Ok img' =>
      (0 < nrows img)%nat /\ (0 < ncols img)%nat
      /\ (nrows img' <= nrows img)%nat /\ (ncols img' <= ncols img)%nat
  | Raise e => e = IndexError
  end.
Proof.
  unfold trim_pass.
  pose proof (trim_edge_shape t img) as H1.
  destruct (trim_edge t img) as [a1|e1]; cbn [bind]; [|tauto].
  pose proof (trim_edge_shape t a1) as H2.
  destruct (trim_edge t a1) as [a2|e2]; cbn [bind]; [|tauto].
  pose proof (trim_edge_shape t a2) as H3.
  destruct (trim_edge t a2) as [a3|e3]; cbn [bind]; [|tauto].
  pose proof (trim_edge_shape t a3) as H4.
  destruct (trim_edge t a3) as [a4|e4]; [|tauto].
  lia.
Qed.

Lemma shape_eqb_eq (s u : nat * nat) : shape_eqb s u = true <-> s = u.
Proof.
  destruct s as [a b], u as [c d]. unfold shape_eqb. simpl.
  rewrite andb_true_iff, !Nat.eqb_eq. split.
  - intros [-> ->]. reflexivity.
  - intros H. injection H as -> ->. split; reflexivity.
Qed.

Lemma trim_loop_fixed (fuel : nat) (t : Q) (img : ndarray) :
  trim_loop fuel t (shape img) img = Some (Ok img).
Proof.
  assert (H : shape_eqb (shape img) (shape img) = true)
    by (apply shape_eqb_eq; reflexivity).
  destruct fuel; simpl; rewrite H; reflexivity.
Qed.

(** The loop ends within [nrows + ncols + 1] passes: each pass that does
    not end it takes a row or a column away. *)
Lemma trim_loop_total (fuel : nat) (t : Q) :
  forall (oldsize : nat * nat) (img : ndarray),
    (nrows img + ncols img < fuel)%nat ->
    exists r,
      trim_loop fuel t oldsize img = Some r
      /\ (forall e, r = Raise e -> e = IndexError)
      /\ (forall img', r = Ok img' ->
            (oldsize = shape img /\ img' = img)
            \/ ((0 < nrows img')%nat /\ (0 < ncols img')%nat)).
Proof.
  induction fuel as [|fuel IH]; intros oldsize img Hfuel; [lia|].
  simpl. destruct (shape_eqb oldsize (shape img)) eqn:Hsame.
  - exists (Ok img). split; [reflexivity|]. split; [discriminate|].
    intros img' H. injection H as <-. left.
    split; [apply shape_eqb_eq; assumption|reflexivity].
  - pose proof (trim_pass_shape t img) as Hpass.
    destruct (trim_pass t img) as [img1|e].
    + destruct Hpass as (Hr & Hc & Hr1 & Hc1).
      destruct (shape_eqb (shape img) (shape img1)) eqn:Hfix.
      * apply shape_eqb_eq in Hfix. rewrite Hfix, trim_loop_fixed.
        exists (Ok img1). split; [reflexivity|]. split; [discriminate|].
        intros img' H. injection H as <-. right.
        unfold shape in Hfix. injection Hfix as <- <-. split; assumption.
      * assert (Hless : (nrows img1 + ncols img1 < fuel)%nat).
        { assert (shape img <> shape img1).
          { intros H. apply shape_eqb_eq in H. congruence. }
          unfold shape in *.
          destruct (Nat.eq_dec (nrows img1) (nrows img)) as [E1|N1];
            destruct (Nat.eq_dec (ncols img1) (ncols img)) as [E2|N2];
            try lia. congruence. }
        destruct (IH (shape img) img1 Hless) as (r & Hr' & He & Hok).
        exists r. split; [assumption|]. split; [assumption|].
        intros img' H. destruct (Hok img' H) as [[Heq _]|Hne]; [|right; assumption].
        exfalso. apply shape_eqb_eq in Heq. congruence.
    + exists (Raise e). split; [reflexivity|]. split.
      * intros e' H. injection H as <-. assumption.
      * discriminate.
Qed.

Lemma trim_loop_more_fuel (fuel : nat) (t : Q) :
  forall (oldsize : nat * nat) (img : ndarray) (r : result ndarray) (extra : nat),
    trim_loop fuel t oldsize img = Some r ->
    trim_loop (extra + fuel) t oldsize img = Some r.
Proof.
  induction fuel as [|fuel IH]; intros oldsize img r extra H.
  - simpl in H. destruct (shape_eqb oldsize (shape img)) eqn:Hsame; [|discriminate].
    destruct (extra + 0)%nat; simpl; rewrite Hsame; assumption.
  - replace (extra + S fuel)%nat with (S (extra + fuel)) by lia.
    simpl in *. destruct (shape_eqb oldsize (shape img)); [assumption|].
    destruct (trim_pass t img); [|assumption].
    apply IH. assumption.
Qed.

(** C6.  [trim_margins] ends on every image, within [nrows + ncols + 1]
    passes over the four edges, and more passes allowed change nothing.
    It ends with the trimmed image or with an error, which is the
    [IndexError] of [img[0, :]] on an array that has no row left: an
    image trimmed to nothing is never returned (the array returned has no
    empty side, but for the array of shape (0, 0) given as input, which
    the loop does not enter). *)
Theorem trim_margins_terminates (f : Form) (img : ndarray) :
  exists r,
    trim_margins f img = r
    /\ (forall fuel, (trim_fuel img <= fuel)%nat ->
                     trim_loop fuel (trim_std f) (0, 0)%nat img = Some r)
    /\ (forall e, r = Raise e -> e = IndexError)
    /\ (forall img', r = Ok img' ->
          (shape img = (0, 0)%nat /\ img' = img)
          \/ ((0 < nrows img')%nat /\ (0 < ncols img')%nat)).
Proof.
  destruct (trim_loop_total (trim_fuel img) (trim_std f) (0, 0)%nat img)
    as (r & Hr & He & Hok); [unfold trim_fuel; lia|].
  exists r. split; [unfold trim_margins; rewrite Hr; reflexivity|].
  split; [|split].
  - intros fuel Hfuel.
    replace fuel with ((fuel - trim_fuel img) + trim_fuel img)%nat by lia.
    apply trim_loop_more_fuel. assumption.
  - assumption.
  - intros img' H. destruct (Hok img' H) as [[Heq ->]|Hne]; [left|right; assumption].
    split; [symmetry; assumption|reflexivity].
Qed.

(** ** Size check *)

Example check_size_at_tolerance : check_size form_100_200 (blank 110 200) = Ok tt.
Proof. reflexivity. Qed.

Example check_size_beyond_tolerance :
  check_size form_100_200 (blank 111 200) = Raise StandardError.
Proof. reflexivity. Qed.



Lemma Qle_bool_false_iff (a b : Q) : Qle_bool a b = false <-> b < a.
Proof.
  split; [apply Qle_bool_false_lt|].
  intros H. destruct (Qle_bool a b) eqn:E; [|reflexivity].
  apply Qle_bool_iff in E. exfalso. apply (Qlt_irrefl b).
  eapply Qlt_le_trans; eassumption.
Qed.




(** ** Offset update *)

Lemma coords_matrix_cell (f : Form) (i j : nat) :
  (i < fst (size f))%nat -> (j < snd (size f))%nat ->
  exists row, nth_error (coords_matrix f) i = Some row
              /\ nth_error row j = Some (cell f i j).
Proof.
  intros Hi Hj. unfold coords_matrix.
  exists (map (fun j => cell f i j) (seq 0 (snd (size f)))). split.
  - rewrite nth_error_map, nth_error_seq.
    destruct (Nat.ltb_spec i (fst (size f))); [reflexivity|lia].
  - rewrite nth_error_map, nth_error_seq.
    destruct (Nat.ltb_spec j (snd (size f))); [reflexivity|lia].
Qed.

Lemma coords_matrix_shape (f : Form) :
  length (coords_matrix f) = fst (size f)
  /\ Forall (fun row => length row = snd (size f)) (coords_matrix f).
Proof.
  unfold coords_matrix. split.
  - rewrite length_map, length_seq. reflexivity.
  - apply Forall_forall. intros row Hrow. apply in_map_iff in Hrow.
    destruct Hrow as (i & <- & _). rewrite length_map, length_seq. reflexivity.
Qed.

(** C8.  The coordinate matrix that [set_offset] leaves in the form is
    the matrix computed from the geometry whose [pos] alone is moved by
    the translation: it has the shape of the grid, and its cell [(i, j)]
    is the rectangle computed from the moved origin, the spacing and the
    bubble size. *)
Theorem set_offset_coords_shifted_pos (f : Form) (r c : Z) :
  let moved := with_pos f ((fst (pos f) + r)%Z, (snd (pos f) + c)%Z) in
  coords (set_offset f r c) = coords (calc_coords moved)
  /\ length (coords (set_offset f r c)) = fst (size f)
  /\ Forall (fun row => length row = snd (size f)) (coords (set_offset f r c))
  /\ (forall i j, (i < fst (size f))%nat -> (j < snd (size f))%nat ->
        exists row, nth_error (coords (set_offset f r c)) i = Some row
                    /\ nth_error row j = Some (cell moved i j)).
Proof.
  intros moved.
  assert (Heq : coords (set_offset f r c) = coords_matrix moved) by reflexivity.
  split; [reflexivity|]. rewrite Heq.
  split; [apply (coords_matrix_shape moved)|].
  split; [apply (coords_matrix_shape moved)|].
  intros i j Hi Hj. apply coords_matrix_cell; assumption.
Qed.

(** C10.  [set_offset] adds the translation to [offset] and to [pos],
    moves the [info] and [score] rectangles that are set, and computes
    the coordinates again; every other attribute keeps its value. *)
Theorem set_offset_frame (f : Form) (r c : Z) :
  let f' := set_offset f r c in
  (size f' = size f /\ bub f' = bub f /\ space f' = space f
   /\ refzone f' = refzone f /\ expected_dpi f' = expected_dpi f
   /\ expected_size f' = expected_size f
   /\ size_tolerance f' = size_tolerance f
   /\ refrc f' = refrc f /\ ref_rc f' = ref_rc f
   /\ contrast f' = contrast f /\ trim_std f' = trim_std f
   /\ radius f' = radius f /\ min_ref f' = min_ref f
   /\ signal f' = signal f)
  /\ offset f' = ((fst (offset f) + r)%Z, (snd (offset f) + c)%Z)
  /\ pos f' = ((fst (pos f) + r)%Z, (snd (pos f) + c)%Z)
  /\ info f' = option_map (shift_rect r c) (info f)
  /\ score f' = option_map (shift_rect r c) (score f)
  /\ coords f' = coords_matrix f'.
Proof.
  cbv zeta. unfold set_offset, calc_coords, set_coords. cbn [size offset pos bub
    space info score refzone expected_dpi expected_size size_tolerance refrc
    ref_rc contrast trim_std radius min_ref signal coords].
  repeat split; reflexivity.
Qed.

(** ** The pipeline *)

Lemma process_exam_analyse (io : Codec) (config : Form) (imfile : string) :
  process_exam io config imfile
  = (a <- analyse io config imfile ;;
     let '(form, img, bubble_means, choice) := a in
     render io form img bubble_means imfile ;;;
     Ok choice).
Proof.
  unfold process_exam, analyse, locate, render.
  destruct (image_load io (Form_init config) imfile) as [img0|e]; [|reflexivity].
  cbn [bind].
  destruct (trim_margins (Form_init config) img0) as [img1|e]; [|reflexivity].
  cbn [bind].
  destruct (check_size (Form_init config) img1) as [[]|e]; [|reflexivity].
  cbn [bind].
  destruct (refzone_set (Form_init config)).
  - destruct (fit_reference (Form_init config) img1) as [[meanfit fit]|e];
      [|reflexivity].
    cbn [bind].
    destruct (overlay_ref_fit (Form_init config) img1 meanfit fit) as [img2|e];
      [|reflexivity].
    cbn [bind].
    destruct (choose_answers _ _); [|reflexivity]. cbn [bind].
    destruct (write_info_image _ _ _ _); [|reflexivity]. cbn [bind].
    destruct (write_validation _ _ _); reflexivity.
  - cbn [bind]. destruct (choose_answers _ _); [|reflexivity]. cbn [bind].
    destruct (write_info_image _ _ _ _); [|reflexivity]. cbn [bind].
    destruct (write_validation _ _ _); reflexivity.
Qed.

(** C9, as the code has it.  No statement of [process_exam] catches an
    exception, so an error of a diagnostics step ends the call: an error
    of the reference-fit overlay, and, once the answers are chosen, an
    error of the name image or of the validation image, is the outcome of
    [process_exam]; the chosen answers are returned only when every
    diagnostics step has completed. *)
Theorem process_exam_diagnostics_escalate (io : Codec) (config : Form)
        (imfile : string) :
  (forall form img meanfit fit e,
      locate io config imfile = Ok (form, img) ->
      refzone_set form = true ->
      fit_reference form img = Ok (meanfit, fit) ->
      overlay_ref_fit form img meanfit fit = Raise e ->
      process_exam io config imfile = Raise e)
  /\ (forall form img means choice e,
        analyse io config imfile = Ok (form, img, means, choice) ->
        render io form img means imfile = Raise e ->
        process_exam io config imfile = Raise e)
  /\ (forall choice,
        process_exam io config imfile = Ok choice ->
        exists form img means,
          analyse io config imfile = Ok (form, img, means, choice)
          /\ choose_answers form means = Ok choice
          /\ write_info_image io form (overlay_bubble_means form img means)
                              (name_path io imfile) = Ok tt
          /\ write_validation io (overlay_bubble_means form img means)
                              (val_path io imfile) = Ok tt).
Proof.
  split; [|split].
  - intros form img meanfit fit e Hloc Hset Hfit Hov.
    rewrite process_exam_analyse. unfold analyse.
    rewrite Hloc. cbn [bind]. rewrite Hset, Hfit. cbn [bind].
    rewrite Hov. reflexivity.
  - intros form img means choice e Han Hr.
    rewrite process_exam_analyse, Han. cbn [bind]. rewrite Hr. reflexivity.
  - intros choice H. rewrite process_exam_analyse in H.
    destruct (analyse io config imfile) as [[[[form img] means] ch]|e] eqn:Han;
      [|discriminate].
    cbn [bind] in H.
    destruct (render io form img means imfile) as [[]|e] eqn:Hr; [|discriminate].
    cbn [bind] in H. injection H as ->.
    exists form, img, means. split; [reflexivity|].
    split.
    + unfold analyse in Han.
      destruct (locate io config imfile) as [[f0 i0]|e]; [|discriminate].
      cbn [bind] in Han.
      destruct (if refzone_set f0 then _ else _) as [[f1 i1]|e]; [|discriminate].
      cbn [bind] in Han.
      destruct (choose_answers f1 (get_bubble_means f1 i1)) as [c|e] eqn:Hc;
        [|discriminate].
      cbn [bind] in Han. injection Han as <- <- <- <-. assumption.
    + unfold render in Hr.
      destruct (write_info_image io form (overlay_bubble_means form img means)
                                 (name_path io imfile)) as [[]|e]; [|discriminate].
      cbn [bind] in Hr. split; [reflexivity|assumption].
Qed.

(** C9, as the spec has it, fails: the answers of the form are chosen,
    the name image cannot be put together (the two crops pasted side by
    side have different heights), and [process_exam] ends with that
    error instead of the answers. *)
Lemma process_exam_name_image_error :
  choose_answers (Form_init form_one_question)
                 (get_bubble_means (Form_init form_one_question) img_one_question)
  = Ok [0%Z]
  /\ process_exam codec_ok form_one_question "exam.tif" = Raise ValueError
  /\ process_exam codec_ok form_one_question "exam.tif" <> Ok [0%Z].
Proof.
  split; [vm_compute; reflexivity|].
  split; [vm_compute; reflexivity|].
  vm_compute. discriminate.
Qed.

(** * Further properties *)

(** ** Margin trimming: what is kept *)

Lemma same_image_refl (a : ndarray) : same_image a a.
Proof. repeat split. Qed.

Lemma same_image_sym (a b : ndarray) : same_image a b -> same_image b a.
Proof.
  intros (Hr & Hc & Hpx). repeat split; try congruence.
  intros i j Hi Hj. symmetry. apply Hpx; congruence.
Qed.

Lemma same_image_trans (a b c : ndarray) :
  same_image a b -> same_image b c -> same_image a c.
Proof.
  intros (Hr & Hc & Hpx) (Hr' & Hc' & Hpx'). repeat split; try congruence.
  intros i j Hi Hj. rewrite Hpx by assumption. apply Hpx'; congruence.
Qed.

Lemma rot360_same (a : ndarray) : same_image (rot360 a) a.
Proof.
  unfold rot360, same_image, np_rot90. cbn [nrows ncols px].
  repeat split. intros i j Hi Hj. f_equal; lia.
Qed.

Lemma window_refl (a : ndarray) : window a a.
Proof.
  exists 0%nat, 0%nat. repeat split; try lia. 
Qed.

Lemma window_trans (a b c : ndarray) : window a b -> window b c -> window a c.
Proof.
  intros (t & l & Ht & Hl & Hpx) (t' & l' & Ht' & Hl' & Hpx').
  exists (t' + t)%nat, (l' + l)%nat. repeat split; try lia.
  intros i j Hi Hj. rewrite Hpx by assumption.
  rewrite Hpx' by lia. f_equal; lia.
Qed.

Lemma window_same (a b c : ndarray) : window a b -> same_image b c -> window a c.
Proof.
  intros (t & l & Ht & Hl & Hpx) (Hr & Hc & Hpx').
  exists t, l. repeat split; try lia.
  intros i j Hi Hj. rewrite Hpx by assumption. apply Hpx'; lia.
Qed.

Lemma window_rot90 (a b : ndarray) : window a b -> window (np_rot90 a) (np_rot90 b).
Proof.
  intros (t & l & Ht & Hl & Hpx).
  exists (ncols b - l - ncols a)%nat, t.
  unfold window_at, np_rot90. cbn [nrows ncols px].
  repeat split; try lia.
  intros i j Hi Hj. rewrite Hpx by lia. f_equal; lia.
Qed.

Lemma window_drop_row (a : ndarray) :
  window (np_slice a (Some 1%Z) None None None) a.
Proof.
  exists (slice_index (nrows a) 1), 0%nat.
  unfold window_at, np_slice. cbn [nrows ncols px slice_start slice_stop].
  assert (slice_index (nrows a) 1 <= nrows a)%nat by (unfold slice_index; lia).
  repeat split; try lia.
Qed.

Lemma trim_edge_window (t : Q) (a a' : ndarray) :
  trim_edge t a = Ok a' -> window a' (np_rot90 a).
Proof.
  unfold trim_edge. destruct (np_row0 (np_rot90 a)) as [row|e]; [|discriminate].
  cbn [bind]. destruct (np_std_lt row t); intros H; injection H as <-.
  - apply window_drop_row.
  - apply window_refl.
Qed.

Lemma trim_pass_window (t : Q) (a a' : ndarray) :
  trim_pass t a = Ok a' -> window a' a.
Proof.
  unfold trim_pass. intros H.
  destruct (trim_edge t a) as [a1|] eqn:H1; [|discriminate]. cbn [bind] in H.
  destruct (trim_edge t a1) as [a2|] eqn:H2; [|discriminate]. cbn [bind] in H.
  destruct (trim_edge t a2) as [a3|] eqn:H3; [|discriminate]. cbn [bind] in H.
  apply trim_edge_window in H1, H2, H3, H.
  apply window_same with (b := rot360 a); [|apply rot360_same].
  unfold rot360.
  eapply window_trans; [exact H|]. apply window_rot90.
  eapply window_trans; [exact H3|]. apply window_rot90.
  eapply window_trans; [exact H2|]. apply window_rot90. exact H1.
Qed.

Lemma trim_loop_window (fuel : nat) (t : Q) :
  forall oldsize img r,
    trim_loop fuel t oldsize img = Some (Ok r) -> window r img.
Proof.
  induction fuel as [|fuel IH]; intros oldsize img r H; simpl in H.
  - destruct (shape_eqb oldsize (shape img)); [|discriminate].
    injection H as <-. apply window_refl.
  - destruct (shape_eqb oldsize (shape img)).
    + injection H as <-. apply window_refl.
    + destruct (trim_pass t img) as [img1|e] eqn:Hp; [|discriminate].
      apply window_trans with img1; [eapply IH; eassumption|].
      eapply trim_pass_window; eassumption.
Qed.

(** X1.  The image [trim_margins] returns is a rectangle of the image it
    was given: rows and columns are taken away at the borders only, and
    every pixel that is kept keeps its value and its neighbours. *)
Theorem trim_margins_window (f : Form) (img r : ndarray) :
  trim_margins f img = Ok r -> window r img.
Proof.
  unfold trim_margins.
  destruct (trim_loop (trim_fuel img) (trim_std f) (0, 0)%nat img) as [res|] eqn:H.
  - intros ->. eapply trim_loop_window; eassumption.
  - intros H'. injection H' as <-. apply window_refl.
Qed.

Lemma trim_margins_window_witness :
  exists r, trim_margins form_trim img_framed = Ok r /\ window r img_framed.
Proof.
  destruct (trim_margins form_trim img_framed) as [r|e] eqn:H.
  - exists r. split; [reflexivity|].
    exact (trim_margins_window form_trim img_framed r H).
  - exfalso. vm_compute in H. discriminate.
Defined.

(** ** Margin trimming: fixed points *)

Lemma np_row0_same (a b : ndarray) :
  same_image a b -> np_row0 a = np_row0 b.
Proof.
  intros (Hr & Hc & Hpx). unfold np_row0. rewrite <- Hr, <- Hc.
  destruct (nrows a) as [|n] eqn:Hn; [reflexivity|].
  f_equal. apply map_ext_in. intros j Hj. apply in_seq in Hj.
  apply Hpx; lia.
Qed.

Lemma np_rot90_same (a b : ndarray) :
  same_image a b -> same_image (np_rot90 a) (np_rot90 b).
Proof.
  intros (Hr & Hc & Hpx). unfold same_image, np_rot90. cbn [nrows ncols px].
  repeat split; try assumption.
  intros i j Hi Hj. rewrite <- Hc. apply Hpx; lia.
Qed.

Lemma drop_row_same (a b : ndarray) :
  same_image a b ->
  same_image (np_slice a (Some 1%Z) None None None)
             (np_slice b (Some 1%Z) None None None).
Proof.
  intros (Hr & Hc & Hpx). unfold same_image, np_slice.
  cbn [nrows ncols px slice_start slice_stop]. rewrite <- Hr, <- Hc.
  assert (slice_index (nrows a) 1 <= nrows a)%nat by (unfold slice_index; lia).
  repeat split. intros i j Hi Hj. apply Hpx; lia.
Qed.

(** Outcomes that agree: the same error, or images with the same
    content. *)
Lemma trim_edge_same (t : Q) (a b : ndarray) :
  same_image a b ->
  match trim_edge t a, trim_edge t b with
  | Ok a', Ok b' => same_image a' b'
  | Raise e, Raise e' => e = e'
  | _, _ => False
  end.
Proof.
  intros Hab. unfold trim_edge.
  pose proof (np_rot90_same a b Hab) as Hrot.
  rewrite (np_row0_same _ _ Hrot).
  destruct (np_row0 (np_rot90 b)) as [row|e]; cbn [bind]; [|reflexivity].
  destruct (np_std_lt row t); [apply drop_row_same|]; assumption.
Qed.

Lemma trim_pass_same (t : Q) (a b a' : ndarray) :
  same_image a b -> trim_pass t a = Ok a' ->
  exists b', trim_pass t b = Ok b' /\ same_image a' b'.
Proof.
  intros Hab. unfold trim_pass. intros H.
  pose proof (trim_edge_same t a b Hab) as S1.
  destruct (trim_edge t a) as [a1|]; [|discriminate].
  destruct (trim_edge t b) as [b1|]; [|contradiction]. cbn [bind] in *.
  pose proof (trim_edge_same t a1 b1 S1) as S2.
  destruct (trim_edge t a1) as [a2|]; [|discriminate].
  destruct (trim_edge t b1) as [b2|]; [|contradiction]. cbn [bind] in *.
  pose proof (trim_edge_same t a2 b2 S2) as S3.
  destruct (trim_edge t a2) as [a3|]; [|discriminate].
  destruct (trim_edge t b2) as [b3|]; [|contradiction]. cbn [bind] in *.
  pose proof (trim_edge_same t a3 b3 S3) as S4.
  rewrite H in S4.
  destruct (trim_edge t b3) as [b4|]; [|contradiction].
  exists b4. split; [reflexivity|assumption].
Qed.

(** An edge is turned and kept whole, or turned and shortened by a row. *)
Lemma trim_edge_cases (t : Q) (a a' : ndarray) :
  trim_edge t a = Ok a' ->
  (a' = np_rot90 a /\ np_row0 (np_rot90 a) <> Raise IndexError
   /\ forall row, np_row0 (np_rot90 a) = Ok row -> np_std_lt row t = false)
  \/ ((nrows a' + 1 = ncols a)%nat /\ ncols a' = nrows a).
Proof.
  unfold trim_edge. destruct (np_row0 (np_rot90 a)) as [row|e] eqn:Hrow;
    [|discriminate].
  cbn [bind]. destruct (np_std_lt row t) eqn:Hstd; intros H; injection H as <-.
  - right. unfold np_row0 in Hrow. cbn [np_rot90 nrows ncols] in Hrow.
    cbn [np_slice np_rot90 nrows ncols slice_start slice_stop].
    destruct (ncols a) as [|w] eqn:Hw; [discriminate|].
    unfold slice_index. change (1 <? 0)%Z with false. cbv iota. lia.
  - left. split; [reflexivity|]. split; [discriminate|].
    intros row' H. injection H as <-. assumption.
Qed.

(** A pass that leaves the shape as it was has trimmed nothing. *)
Lemma trim_pass_unchanged (t : Q) (a a' : ndarray) :
  trim_pass t a = Ok a' -> shape a' = shape a -> a' = rot360 a.
Proof.
  unfold trim_pass. intros H Hshape.
  destruct (trim_edge t a) as [a1|] eqn:H1; [|discriminate]. cbn [bind] in H.
  destruct (trim_edge t a1) as [a2|] eqn:H2; [|discriminate]. cbn [bind] in H.
  destruct (trim_edge t a2) as [a3|] eqn:H3; [|discriminate]. cbn [bind] in H.
  pose proof (trim_edge_shape t a) as S1. rewrite H1 in S1.
  pose proof (trim_edge_shape t a1) as S2. rewrite H2 in S2.
  pose proof (trim_edge_shape t a2) as S3. rewrite H3 in S3.
  pose proof (trim_edge_shape t a3) as S4. rewrite H in S4.
  unfold shape in Hshape. injection Hshape as Hr Hc.
  destruct (trim_edge_cases t a a1 H1) as [(-> & _)|[E1 _]]; [|exfalso; lia].
  destruct (trim_edge_cases t _ a2 H2) as [(-> & _)|[E2 _]];
    [|exfalso; cbn [np_rot90 nrows ncols] in *; lia].
  destruct (trim_edge_cases t _ a3 H3) as [(-> & _)|[E3 _]];
    [|exfalso; cbn [np_rot90 nrows ncols] in *; lia].
  destruct (trim_edge_cases t _ a' H) as [(-> & _)|[E4 _]];
    [|exfalso; cbn [np_rot90 nrows ncols] in *; lia].
  reflexivity.
Qed.

(** The image the loop returns is its input, or comes out of a pass that
    left the shape as it was. *)
Lemma trim_loop_last_pass (fuel : nat) (t : Q) :
  forall oldsize img r,
    trim_loop fuel t oldsize img = Some (Ok r) ->
    (oldsize = shape img /\ r = img)
    \/ (exists prev, trim_pass t prev = Ok r /\ shape r = shape prev).
Proof.
  induction fuel as [|fuel IH]; intros oldsize img r H; simpl in H.
  - destruct (shape_eqb oldsize (shape img)) eqn:E; [|discriminate].
    injection H as <-. left. split; [apply shape_eqb_eq; assumption|reflexivity].
  - destruct (shape_eqb oldsize (shape img)) eqn:E.
    + injection H as <-. left.
      split; [apply shape_eqb_eq; assumption|reflexivity].
    + destruct (trim_pass t img) as [img1|e] eqn:Hp; [|discriminate].
      destruct (IH _ _ _ H) as [[Hs ->]|Hprev]; [|right; assumption].
      right. exists img. split; [assumption|symmetry; assumption].
Qed.

Lemma trim_margins_loop (f : Form) (img : ndarray) :
  trim_loop (trim_fuel img) (trim_std f) (0, 0)%nat img
  = Some (trim_margins f img).
Proof.
  destruct (trim_loop_total (trim_fuel img) (trim_std f) (0, 0)%nat img)
    as (r & Hr & _); [unfold trim_fuel; lia|].
  unfold trim_margins. rewrite Hr. reflexivity.
Qed.

(** An image that a pass leaves with its shape is returned after that
    one pass. *)
Lemma trim_margins_one_pass (f : Form) (img r : ndarray) :
  trim_pass (trim_std f) img = Ok r -> shape r = shape img ->
  exists r', trim_margins f img = Ok r' /\ same_image r' img.
Proof.
  intros Hp Hs.
  assert (Hsame : same_image r img).
  { rewrite (trim_pass_unchanged _ _ _ Hp Hs). apply rot360_same. }
  unfold trim_margins, trim_fuel. cbn [trim_loop].
  destruct (shape_eqb (0, 0)%nat (shape img)) eqn:E.
  - exists img. split; [reflexivity|apply same_image_refl].
  - rewrite Hp, <- Hs, trim_loop_fixed. exists r. split; [reflexivity|assumption].
Qed.

(** X2.  [trim_margins] is idempotent: trimming the image it returned
    returns an image of the same shape with the same pixels. *)
Theorem trim_margins_idempotent (f : Form) (img r : ndarray) :
  trim_margins f img = Ok r ->
  exists r', trim_margins f r = Ok r' /\ same_image r' r.
Proof.
  intros H. pose proof (trim_margins_loop f img) as Hloop. rewrite H in Hloop.
  destruct (trim_loop_last_pass _ _ _ _ _ Hloop) as [[Hs ->]|(prev & Hp & Hs)].
  - exists img. split; [assumption|apply same_image_refl].
  - assert (Hsame : same_image prev r).
    { apply same_image_sym. rewrite (trim_pass_unchanged _ _ _ Hp Hs).
      apply rot360_same. }
    destruct (trim_pass_same _ _ _ _ Hsame Hp) as (r2 & Hp2 & Hsame2).
    apply (trim_margins_one_pass f r r2 Hp2).
    destruct Hsame2 as (Hr & Hc & _). unfold shape. congruence.
Qed.

Lemma trim_margins_idempotent_witness :
  exists r, trim_margins form_trim img_framed = Ok r
            /\ exists r', trim_margins form_trim r = Ok r' /\ same_image r' r.
Proof.
  destruct (trim_margins form_trim img_framed) as [r|e] eqn:H.
  - exists r. split; [reflexivity|].
    exact (trim_margins_idempotent form_trim img_framed r H).
  - exfalso. vm_compute in H. discriminate.
Defined.

(** A pass that leaves the shape as it was has found none of the four
    edges below the threshold. *)
Lemma trim_pass_unchanged_edges (t : Q) (a a' : ndarray) :
  trim_pass t a = Ok a' -> shape a' = shape a ->
  Forall (fun e => exists row, e = Ok row /\ np_std_lt row t = false) (edges a).
Proof.
  unfold trim_pass. intros H Hshape.
  destruct (trim_edge t a) as [a1|] eqn:H1; [|discriminate]. cbn [bind] in H.
  destruct (trim_edge t a1) as [a2|] eqn:H2; [|discriminate]. cbn [bind] in H.
  destruct (trim_edge t a2) as [a3|] eqn:H3; [|discriminate]. cbn [bind] in H.
  pose proof (trim_edge_shape t a) as S1. rewrite H1 in S1.
  pose proof (trim_edge_shape t a1) as S2. rewrite H2 in S2.
  pose proof (trim_edge_shape t a2) as S3. rewrite H3 in S3.
  pose proof (trim_edge_shape t a3) as S4. rewrite H in S4.
  unfold shape in Hshape. injection Hshape as Hr Hc.
  assert (Hrow : forall b, np_row0 b <> Raise IndexError ->
                   (forall row, np_row0 b = Ok row -> np_std_lt row t = false) ->
                   exists row, np_row0 b = Ok row /\ np_std_lt row t = false).
  { intros b Hne Hstd. unfold np_row0 in *.
    destruct (nrows b); [congruence|]. eexists. split; [reflexivity|].
    apply Hstd. reflexivity. }
  destruct (trim_edge_cases t a a1 H1) as [(-> & N1 & E1)|[E1 _]];
    [|exfalso; lia].
  destruct (trim_edge_cases t _ a2 H2) as [(-> & N2 & E2)|[E2 _]];
    [|exfalso; cbn [np_rot90 nrows ncols] in *; lia].
  destruct (trim_edge_cases t _ a3 H3) as [(-> & N3 & E3)|[E3 _]];
    [|exfalso; cbn [np_rot90 nrows ncols] in *; lia].
  destruct (trim_edge_cases t _ a' H) as [(-> & N4 & E4)|[E4 _]];
    [|exfalso; cbn [np_rot90 nrows ncols] in *; lia].
  unfold edges. repeat constructor; apply Hrow; assumption.
Qed.

Lemma edges_same (a b : ndarray) : same_image a b -> edges a = edges b.
Proof.
  intros H. unfold edges.
  pose proof (np_rot90_same _ _ H) as H1.
  pose proof (np_rot90_same _ _ H1) as H2.
  pose proof (np_rot90_same _ _ H2) as H3.
  pose proof (np_rot90_same _ _ H3) as H4.
  rewrite (np_row0_same _ _ H1), (np_row0_same _ _ H2),
          (np_row0_same _ _ H3), (np_row0_same _ _ H4).
  reflexivity.
Qed.

(** X3.  The image [trim_margins] returns has no edge left to trim: its
    last column, its last row, its first column and its first row, the
    leading rows of its four quarter turns, exist and have a deviation
    that is not below the threshold.  (The array of shape (0, 0), which
    the loop does not enter, is the one input returned unread.) *)
Theorem trim_margins_edges_kept (f : Form) (img r : ndarray) :
  trim_margins f img = Ok r -> shape img <> (0, 0)%nat ->
  Forall (fun e => exists row, e = Ok row /\ np_std_lt row (trim_std f) = false)
         (edges r).
Proof.
  intros H Hshape. pose proof (trim_margins_loop f img) as Hloop.
  rewrite H in Hloop.
  destruct (trim_loop_last_pass _ _ _ _ _ Hloop) as [[Hs _]|(prev & Hp & Hs)];
    [congruence|].
  rewrite (edges_same r prev).
  - eapply trim_pass_unchanged_edges; eassumption.
  - rewrite (trim_pass_unchanged _ _ _ Hp Hs). apply rot360_same.
Qed.

Lemma trim_margins_edges_kept_witness :
  exists r, trim_margins form_trim img_framed = Ok r
            /\ Forall (fun e => exists row, e = Ok row
                                 /\ np_std_lt row (trim_std form_trim) = false)
                      (edges r).
Proof.
  destruct (trim_margins form_trim img_framed) as [r|e] eqn:H.
  - exists r. split; [reflexivity|].
    apply (trim_margins_edges_kept form_trim img_framed r H). discriminate.
  - exfalso. vm_compute in H. discriminate.
Defined.

Lemma np_std_lt_nonpositive (row : list Z) (t : Q) :
  t <= 0 -> np_std_lt row t = false.
Proof.
  intros Ht. unfold np_std_lt. destruct row; [reflexivity|].
  apply Qle_bool_iff in Ht. rewrite Ht. reflexivity.
Qed.

(** X4.  With a trimming threshold that is zero (the class default) or
    negative no edge is ever below it: an image without an empty side
    comes back whole, same shape and same pixels. *)
Theorem trim_margins_disabled (f : Form) (img : ndarray) :
  trim_std f <= 0 -> (0 < nrows img)%nat -> (0 < ncols img)%nat ->
  exists r, trim_margins f img = Ok r /\ same_image r img.
Proof.
  intros Ht Hr Hc.
  assert (Hedge : forall a, (0 < ncols a)%nat ->
                            trim_edge (trim_std f) a = Ok (np_rot90 a)).
  { intros a Ha. unfold trim_edge, np_row0. cbn [np_rot90 nrows ncols].
    destruct (ncols a); [lia|]. cbn [bind].
    rewrite np_std_lt_nonpositive by assumption. reflexivity. }
  apply (trim_margins_one_pass f img (rot360 img)); [|reflexivity].
  unfold trim_pass, rot360.
  rewrite Hedge by assumption. cbn [bind].
  rewrite Hedge by assumption. cbn [bind].
  rewrite Hedge by assumption. cbn [bind].
  apply Hedge. assumption.
Qed.

Lemma trim_margins_disabled_witness :
  exists r, trim_margins Form_default img_framed = Ok r /\ same_image r img_framed.
Proof.
  apply (trim_margins_disabled Form_default img_framed).
  - discriminate.
  - simpl. lia.
  - simpl. lia.
Defined.

(** ** Margin trimming: a page without content *)

Lemma Zsum_constant (c : Z) (vals : list Z) :
  Forall (eq c) vals -> Zsum vals = (Z.of_nat (length vals) * c)%Z.
Proof.
  induction 1 as [|x vals Hx _ IH]; [reflexivity|].
  subst x. cbn [Zsum fold_right length]. fold (Zsum vals). rewrite IH. lia.
Qed.

Lemma Qsum_zero (g : Z -> Q) (vals : list Z) :
  (forall x, In x vals -> g x == 0) -> Qsum (map g vals) == 0.
Proof.
  induction vals as [|x vals IH]; intros H; [reflexivity|].
  cbn [map Qsum fold_right]. fold (Qsum (map g vals)).
  rewrite (H x) by (left; reflexivity).
  rewrite IH by (intros; apply H; right; assumption). reflexivity.
Qed.

Lemma np_var_constant (c : Z) (vals : list Z) :
  vals <> [] -> Forall (eq c) vals -> np_var vals == 0.
Proof.
  intros Hne Hc. unfold np_var. cbv zeta.
  assert (Hn : ~ inject_Z (Z.of_nat (length vals)) == 0).
  { destruct vals; [congruence|].
    intros H. apply (Qlt_irrefl 0). rewrite <- H at 2.
    change 0 with (inject_Z 0). rewrite <- Zlt_Qlt. simpl length. lia. }
  assert (Hm : inject_Z (Zsum vals) / inject_Z (Z.of_nat (length vals))
               == inject_Z c).
  { rewrite (Zsum_constant c vals Hc), inject_Z_mult, Qmult_comm.
    apply Qdiv_mult_l. assumption. }
  rewrite Qsum_zero; [unfold Qdiv; apply Qmult_0_l|].
  intros x Hx. rewrite Forall_forall in Hc. rewrite <- (Hc x Hx), Hm. ring.
Qed.

Lemma np_std_lt_constant (c : Z) (vals : list Z) (t : Q) :
  0 < t -> vals <> [] -> Forall (eq c) vals -> np_std_lt vals t = true.
Proof.
  intros Ht Hne Hc. unfold np_std_lt. destruct vals as [|x vals]; [congruence|].
  apply andb_true_iff. split; apply negb_true_iff, Qle_bool_false_iff.
  - assumption.
  - rewrite (np_var_constant c (x :: vals) Hne Hc).
    rewrite <- (Qmult_0_l t). apply Qmult_lt_compat_r; assumption.
Qed.

Lemma constant_rot90 (c : Z) (a : ndarray) :
  constant_image c a -> constant_image c (np_rot90 a).
Proof.
  intros H i j Hi Hj. cbn [np_rot90 nrows ncols px] in *. apply H; lia.
Qed.

Lemma constant_drop_row (c : Z) (a : ndarray) :
  constant_image c a -> constant_image c (np_slice a (Some 1%Z) None None None).
Proof.
  intros H i j Hi Hj. cbn [np_slice nrows ncols px slice_start slice_stop] in *.
  assert (slice_index (nrows a) 1 <= nrows a)%nat by (unfold slice_index; lia).
  apply H; lia.
Qed.

Lemma trim_edge_constant (c : Z) (t : Q) (a a' : ndarray) :
  constant_image c a -> trim_edge t a = Ok a' -> constant_image c a'.
Proof.
  intros Hc. unfold trim_edge.
  destruct (np_row0 (np_rot90 a)) as [row|]; [|discriminate]. cbn [bind].
  destruct (np_std_lt row t); intros H; injection H as <-.
  - apply constant_drop_row, constant_rot90, Hc.
  - apply constant_rot90, Hc.
Qed.

(** On a constant image that has pixels the first edge is trimmed. *)
Lemma trim_edge_constant_trims (c : Z) (t : Q) (a : ndarray) :
  0 < t -> constant_image c a -> (0 < nrows a)%nat -> (0 < ncols a)%nat ->
  exists a', trim_edge t a = Ok a' /\ (nrows a' + 1 = ncols a)%nat
             /\ ncols a' = nrows a.
Proof.
  intros Ht Hc Hr Hw. unfold trim_edge, np_row0. cbn [np_rot90 nrows ncols].
  destruct (ncols a) as [|w] eqn:Ew; [lia|]. cbn [bind].
  rewrite (np_std_lt_constant c).
  - eexists. split; [reflexivity|].
    cbn [np_slice np_rot90 nrows ncols slice_start slice_stop]. rewrite ?Ew.
    unfold slice_index. change (1 <? 0)%Z with false. cbv iota. lia.
  - assumption.
  - destruct (nrows a); [lia|]. discriminate.
  - apply Forall_forall. intros x Hx. apply in_map_iff in Hx.
    destruct Hx as (j & <- & Hj). apply in_seq in Hj.
    symmetry. cbn [px]. apply Hc; lia.
Qed.

Lemma trim_pass_constant (c : Z) (t : Q) (a a' : ndarray) :
  0 < t -> constant_image c a -> trim_pass t a = Ok a' ->
  constant_image c a' /\ (nrows a' + ncols a' < nrows a + ncols a)%nat.
Proof.
  intros Ht Hc H.
  pose proof (trim_pass_shape t a) as Hs. rewrite H in Hs.
  destruct Hs as (Hr & Hw & _).
  destruct (trim_edge_constant_trims c t a Ht Hc Hr Hw) as (a1 & H1 & E1 & E1').
  unfold trim_pass in H. rewrite H1 in H. cbn [bind] in H.
  destruct (trim_edge t a1) as [a2|] eqn:H2; [|discriminate]. cbn [bind] in H.
  destruct (trim_edge t a2) as [a3|] eqn:H3; [|discriminate]. cbn [bind] in H.
  pose proof (trim_edge_shape t a1) as S2. rewrite H2 in S2.
  pose proof (trim_edge_shape t a2) as S3. rewrite H3 in S3.
  pose proof (trim_edge_shape t a3) as S4. rewrite H in S4.
  split; [|lia].
  eapply trim_edge_constant; [|exact H].
  eapply trim_edge_constant; [|exact H3].
  eapply trim_edge_constant; [|exact H2].
  eapply trim_edge_constant; [|exact H1]. assumption.
Qed.

Lemma trim_loop_constant (c : Z) (t : Q) (fuel : nat) :
  0 < t ->
  forall oldsize img,
    constant_image c img -> oldsize <> shape img ->
    (nrows img + ncols img < fuel)%nat ->
    trim_loop fuel t oldsize img = Some (Raise IndexError).
Proof.
  intros Ht. induction fuel as [|fuel IH]; intros oldsize img Hc Hold Hfuel; [lia|].
  simpl. destruct (shape_eqb oldsize (shape img)) eqn:E.
  - apply shape_eqb_eq in E. contradiction.
  - pose proof (trim_pass_shape t img) as Hs.
    destruct (trim_pass t img) as [img1|e] eqn:Hp; [|rewrite Hs; reflexivity].
    destruct (trim_pass_constant c t img img1 Ht Hc Hp) as (Hc1 & Hless).
    apply IH; [assumption| |lia].
    unfold shape. intros Heq. injection Heq as Hr Hw. lia.
Qed.

(** X5.  A page without content cannot be trimmed: on an image whose
    pixels all have the same value, with a positive threshold, every edge
    is below the threshold, the image is trimmed to nothing and
    [trim_margins] ends with the [IndexError] of [img[0, :]]. *)
Theorem trim_margins_constant_image (f : Form) (c : Z) (img : ndarray) :
  0 < trim_std f -> constant_image c img -> shape img <> (0, 0)%nat ->
  trim_margins f img = Raise IndexError.
Proof.
  intros Ht Hc Hshape. unfold trim_margins.
  rewrite (trim_loop_constant c (trim_std f) (trim_fuel img) Ht (0, 0)%nat img);
    [reflexivity|assumption|congruence|unfold trim_fuel; lia].
Qed.

Lemma trim_margins_constant_image_witness :
  trim_margins form_trim (blank 3 4) = Raise IndexError.
Proof.
  apply (trim_margins_constant_image form_trim 255%Z (blank 3 4)).
  - reflexivity.
  - intros i j _ _. reflexivity.
  - discriminate.
Defined.

(** ** Size check: a form without expected size *)

(** X6.  When the expected size is zero on an axis (the class default is
    zero on both) the relative deviation is infinite or undefined, and
    [check_size] rejects every image, whatever the tolerance. *)
Theorem check_size_zero_expected (f : Form) (img : ndarray) :
  fst (expected_size f) = 0%Z \/ snd (expected_size f) = 0%Z ->
  check_size f img = Raise StandardError.
Proof.
  assert (Hz : forall dim tol, fle (pctdiff dim 0) (Fin tol) = false).
  { intros dim tol. unfold pctdiff, fdiv.
    change (Qeq_bool (inject_Z 0) 0) with true. cbv iota.
    assert (Hneg : Qsgn_neg (inject_Z (Z.abs (Z.of_nat dim - 0))) = false).
    { unfold Qsgn_neg. apply negb_false_iff, Qle_bool_iff.
      change 0 with (inject_Z 0). rewrite <- Zle_Qle. lia. }
    rewrite Hneg. destruct (Qsgn_pos _); reflexivity. }
  intros [H|H]; unfold check_size; rewrite H, Hz;
    [|rewrite andb_false_r]; reflexivity.
Qed.

Lemma check_size_zero_expected_witness :
  check_size Form_default (blank 100 200) = Raise StandardError.
Proof.
  apply (check_size_zero_expected Form_default (blank 100 200)).
  left. reflexivity.
Defined.

(** ** Geometry: the rectangles and their translation *)











(** X8.  Two translations in a row amount to the translation by their
    sum: the same cumulative offset, origin and coordinate matrix.  (The
    form has no [info] and no [score] rectangle: [set_offset] turns a
    rectangle it moves into an array, whose truth value a second call
    could not test.) *)
Theorem set_offset_twice (f : Form) (r1 c1 r2 c2 : Z) :
  info f = None -> score f = None ->
  set_offset (set_offset f r1 c1) r2 c2 = set_offset f (r1 + r2) (c1 + c2).
Proof.
  intros Hinfo Hscore. unfold set_offset, calc_coords, set_coords.
  cbn [size offset pos bub space info score refzone expected_dpi expected_size
       size_tolerance refrc ref_rc contrast trim_std radius min_ref signal
       coords fst snd].
  rewrite Hinfo, Hscore. rewrite !Z.add_assoc. reflexivity.
Qed.

Lemma set_offset_twice_witness :
  set_offset (set_offset form_grid 2 (-1)) (-5) 4 = set_offset form_grid (2 + -5) (-1 + 4).
Proof.
  apply (set_offset_twice form_grid 2 (-1) (-5) 4); reflexivity.
Defined.





(** ** Reference search: outcomes *)

Lemma search_coords_empty (radius : Z) : (radius <= 0)%Z -> search_coords radius = [].
Proof.
  intros H. unfold search_coords, np_arange.
  replace (Z.to_nat (radius - - radius)) with 0%nat by lia. reflexivity.
Qed.

(** X10.  With a search radius of zero (the class default) or less there
    is no candidate offset at all, and the search ends with the
    [ValueError] of the minimum of an empty sequence, whatever the image
    and the box. *)
Theorem center_on_box_no_radius (img : ndarray) (radius : Z) (min_ref : Q)
        (xmin xmax ymin ymax : Z) :
  (radius <= 0)%Z ->
  center_on_box img radius min_ref xmin xmax ymin ymax = Raise ValueError.
Proof.
  intros H. unfold center_on_box. rewrite (search_coords_empty radius H).
  reflexivity.
Qed.

Lemma center_on_box_no_radius_witness :
  center_on_box img_dark 0 255 1 2 1 2 = Raise ValueError.
Proof.
  apply (center_on_box_no_radius img_dark 0 255 1 2 1 2). lia.
Defined.

(** A candidate within [min_ref] makes the search return a candidate
    within [min_ref]. *)
Lemma center_on_box_match (img : ndarray) (radius : Z) (min_ref : Q)
      (xmin xmax ymin ymax : Z) (c0 : Z * Z) :
  In c0 (search_coords radius) ->
  fle (box_mean img xmin xmax ymin ymax c0) (Fin min_ref) = true ->
  exists c,
    center_on_box img radius min_ref xmin xmax ymin ymax = Ok c
    /\ In c (search_coords radius)
    /\ fle (box_mean img xmin xmax ymin ymax c) (Fin min_ref) = true.
Proof.
  intros Hin0 Hle0. unfold center_on_box.
  set (bm := box_mean img xmin xmax ymin ymax) in *.
  set (cs := search_coords radius) in *.
  assert (Hmean : Forall is_mean (map bm cs)).
  { apply Forall_forall. intros y Hy. apply in_map_iff in Hy.
    destruct Hy as (c & <- & _). apply box_mean_is_mean. }
  assert (Hnn0 : isnan (bm c0) = false).
  { destruct (bm c0); simpl in *; congruence. }
  assert (Hfit0 : In (bm c0) (map bm cs)) by (apply in_map; assumption).
  destruct (nanmin_le (map bm cs) (bm c0) Hmean Hfit0 Hnn0) as (m & Hm & Hmle).
  rewrite Hm. cbn [bind].
  rewrite (fle_trans m (bm c0) (Fin min_ref) Hmle Hle0).
  destruct (nanargmin_spec (map bm cs) Hmean) as (k & v & Hk & Hv & _ & Hall & _).
  { exists (bm c0). split; assumption. }
  rewrite Hk. cbn [bind]. rewrite nth_error_map in Hv.
  destruct (nth_error cs k) as [c|] eqn:Hc; [|discriminate].
  simpl in Hv. injection Hv as <-.
  exists c. split; [reflexivity|]. split; [eapply nth_error_In; eassumption|].
  apply In_nth_error in Hfit0. destruct Hfit0 as (j & Hj).
  destruct (Hall j _ Hj) as [H|H]; [congruence|].
  eapply fle_trans; eassumption.
Qed.

(** X11.  With a positive radius the search always returns, and what it
    returns is the sentinel, when no candidate has a mean within
    [min_ref], or an offset whose mean is within [min_ref], whose two
    components are in [-radius .. radius - 1] and which lies in the disc
    of that radius. *)
Theorem center_on_box_result (img : ndarray) (radius : Z) (min_ref : Q)
        (xmin xmax ymin ymax : Z) :
  (0 < radius)%Z ->
  exists c,
    center_on_box img radius min_ref xmin xmax ymin ymax = Ok c
    /\ ((c = (na_val, na_val)
         /\ forall c', In c' (search_coords radius) ->
              fle (box_mean img xmin xmax ymin ymax c') (Fin min_ref) = false)
        \/ (fle (box_mean img xmin xmax ymin ymax c) (Fin min_ref) = true
            /\ (- radius <= fst c < radius)%Z
            /\ (- radius <= snd c < radius)%Z
            /\ (fst c * fst c + snd c * snd c <= radius * radius)%Z)).
Proof.
  intros Hr.
  set (bm := box_mean img xmin xmax ymin ymax).
  destruct (existsb (fun c => fle (bm c) (Fin min_ref)) (search_coords radius))
    eqn:E.
  - apply existsb_exists in E. destruct E as (c0 & Hin0 & Hle0).
    destruct (center_on_box_match img radius min_ref xmin xmax ymin ymax c0
                Hin0 Hle0) as (c & Hc & Hin & Hle).
    exists c. split; [assumption|]. right. split; [assumption|].
    destruct c as [i j]. apply search_coords_In in Hin. simpl. lia.
  - assert (Hnone : forall c, In c (search_coords radius) ->
                              fle (bm c) (Fin min_ref) = false).
    { intros c Hc. destruct (fle (bm c) (Fin min_ref)) eqn:Hf; [|reflexivity].
      assert (existsb (fun c => fle (bm c) (Fin min_ref)) (search_coords radius)
              = true) by (apply existsb_exists; exists c; split; assumption).
      congruence. }
    exists (na_val, na_val). split.
    + apply center_on_box_no_match; assumption.
    + left. split; [reflexivity|assumption].
Qed.

Lemma center_on_box_result_witness :
  exists c,
    center_on_box img_below 1 0 1 2 1 2 = Ok c
    /\ ((c = (na_val, na_val)
         /\ forall c', In c' (search_coords 1) ->
              fle (box_mean img_below 1 2 1 2 c') (Fin 0) = false)
        \/ (fle (box_mean img_below 1 2 1 2 c) (Fin 0) = true
            /\ (- (1) <= fst c < 1)%Z
            /\ (- (1) <= snd c < 1)%Z
            /\ (fst c * fst c + snd c * snd c <= 1 * 1)%Z)).
Proof.
  apply (center_on_box_result img_below 1 0 1 2 1 2). lia.
Defined.

(** ** Reference fit: the offset when every box is found *)

Lemma mapM_Forall2 {A B : Type} (g : A -> result B) (l : list A) (ys : list B) :
  mapM g l = Ok ys -> Forall2 (fun x y => g x = Ok y) l ys.
Proof.
  revert ys. induction l as [|x l IH]; intros ys H; simpl in H.
  - injection H as <-. constructor.
  - destruct (g x) as [y|] eqn:Hx; [|discriminate]. cbn [bind] in H.
    destruct (mapM g l) as [ys'|]; [|discriminate]. cbn [bind] in H.
    injection H as <-. constructor; [assumption|apply IH; reflexivity].
Qed.

Lemma Zsum_bounds (lo hi : Z) (l : list Z) :
  Forall (fun x => (lo <= x <= hi)%Z) l ->
  (lo * Z.of_nat (length l) <= Zsum l <= hi * Z.of_nat (length l))%Z.
Proof.
  induction 1 as [|x l Hx _ IH]; [simpl; lia|].
  cbn [Zsum fold_right length]. fold (Zsum l). lia.
Qed.

(** The truncated mean of integers between two bounds is between
    them. *)
Lemma trunc_mean_bounds (lo hi : Z) (l : list Z) :
  l <> [] -> Forall (fun x => (lo <= x <= hi)%Z) l ->
  (lo <= Qtrunc (Zsum l # Pos.of_nat (length l)) <= hi)%Z.
Proof.
  intros Hne Hall. unfold Qtrunc. cbn [Qnum Qden].
  assert (Hn : Z.pos (Pos.of_nat (length l)) = Z.of_nat (length l)).
  { destruct l; [congruence|]. simpl length. lia. }
  assert (Hpos : (0 < Z.of_nat (length l))%Z).
  { destruct l; [congruence|]. simpl length. lia. }
  rewrite Hn. pose proof (Zsum_bounds lo hi l Hall) as [Hlo Hhi].
  split.
  - apply Z.le_trans with (Z.quot (lo * Z.of_nat (length l)) (Z.of_nat (length l))).
    + rewrite Z.quot_mul by lia. lia.
    + apply Z.quot_le_mono; lia.
  - apply Z.le_trans with (Z.quot (hi * Z.of_nat (length l)) (Z.of_nat (length l))).
    + apply Z.quot_le_mono; lia.
    + rewrite Z.quot_mul by lia. lia.
Qed.

(** X12.  When every reference box is found, that is when every entry of
    the fit is a candidate offset, the offset that [fit_reference] returns
    for [set_offset] has both components in [-radius .. radius - 1]; and
    the fit has one entry for each reference box. *)
Theorem fit_reference_within_radius (f : Form) (img : ndarray) (zone : list rect)
        (meanfit : Z * Z) (fit : list (Z * Z)) :
  refzone f = Some zone ->
  fit_reference f img = Ok (meanfit, fit) ->
  length fit = length zone
  /\ (Forall (fun c => In c (search_coords (radius f))) fit ->
      (- radius f <= fst meanfit < radius f)%Z
      /\ (- radius f <= snd meanfit < radius f)%Z).
Proof.
  intros Hzone H.
  assert (Hne : fit <> [] /\ box_fits f (binarize (contrast f) img) zone = Ok fit
                /\ meanfit = (Qtrunc (Zsum (map fst fit) # Pos.of_nat (length fit)),
                              Qtrunc (Zsum (map snd fit) # Pos.of_nat (length fit)))).
  { unfold fit_reference in H. rewrite Hzone in H.
    destruct (box_fits f (binarize (contrast f) img) zone) as [fit'|];
      [|discriminate].
    cbn [bind] in H. unfold py_list_eq_int, ma_mean_axis0 in H.
    rewrite unmasked_all in H.
    destruct fit' as [|c0 rest]; [discriminate|].
    injection H as <- <-. repeat split. discriminate. }
  destruct Hne as (Hne & Hfit & ->).
  split.
  - apply mapM_Forall2 in Hfit. symmetry. eapply Forall2_length. eassumption.
  - intros Hall. cbn [fst snd].
    assert (Hne1 : map fst fit <> []) by (destruct fit; [congruence|discriminate]).
    assert (Hne2 : map snd fit <> []) by (destruct fit; [congruence|discriminate]).
    assert (Hb1 : Forall (fun x => (- radius f <= x <= radius f - 1)%Z)
                         (map fst fit)).
    { apply Forall_forall. intros x Hx. apply in_map_iff in Hx.
      destruct Hx as ([i j] & <- & Hc). rewrite Forall_forall in Hall.
      apply Hall, search_coords_In in Hc. simpl. lia. }
    assert (Hb2 : Forall (fun x => (- radius f <= x <= radius f - 1)%Z)
                         (map snd fit)).
    { apply Forall_forall. intros x Hx. apply in_map_iff in Hx.
      destruct Hx as ([i j] & <- & Hc). rewrite Forall_forall in Hall.
      apply Hall, search_coords_In in Hc. simpl. lia. }
    pose proof (trunc_mean_bounds _ _ _ Hne1 Hb1) as B1.
    pose proof (trunc_mean_bounds _ _ _ Hne2 Hb2) as B2.
    rewrite length_map in B1, B2. lia.
Qed.

Lemma fit_reference_within_radius_witness :
  fit_reference form_two_boxes img_two_boxes = Ok ((0, 0)%Z, [(-1, 0); (0, 0)]%Z)
  /\ length [(-1, 0); (0, 0)]%Z = 2%nat
  /\ (- (1) <= 0 < 1)%Z.
Proof.
  assert (H : fit_reference form_two_boxes img_two_boxes
              = Ok ((0, 0)%Z, [(-1, 0); (0, 0)]%Z)) by (vm_compute; reflexivity).
  destruct (fit_reference_within_radius form_two_boxes img_two_boxes
              [(1, 2, 1, 2); (1, 2, 3, 4)]%Z (0, 0)%Z [(-1, 0); (0, 0)]%Z
              eq_refl H) as [Hlen Hin].
  split; [exact H|]. split; [exact Hlen|].
  apply Hin. repeat constructor; vm_compute; tauto.
Defined.

(** ** Bubble means *)

Lemma length_flatten (a : ndarray) : length (flatten a) = (nrows a * ncols a)%nat.
Proof.
  unfold flatten, to_rows.
  assert (H : forall l : list nat,
             length (concat (map (fun i => map (px a i) (seq 0 (ncols a))) l))
             = (length l * ncols a)%nat).
  { induction l as [|i l IH]; [reflexivity|].
    cbn [map concat length]. rewrite length_app, length_map, length_seq, IH.
    reflexivity. }
  rewrite H, length_seq. reflexivity.
Qed.

Lemma flatten_px (a : ndarray) (v : Z) :
  In v (flatten a) -> exists i j, v = px a i j.
Proof.
  unfold flatten, to_rows. intros H. apply in_concat in H.
  destruct H as (row & Hrow & Hv). apply in_map_iff in Hrow.
  destruct Hrow as (i & <- & _). apply in_map_iff in Hv.
  destruct Hv as (j & <- & _). exists i, j. reflexivity.
Qed.

Lemma np_mean_range (vals : list Z) :
  Forall (fun x => (0 <= x <= 255)%Z) vals -> mean_in_range (np_mean vals).
Proof.
  intros H. pose proof (Zsum_bounds 0 255 vals H) as [Hlo Hhi].
  destruct vals as [|x rest]; [left; reflexivity|].
  right. unfold np_mean. eexists. split; [reflexivity|].
  assert (Hn : Z.pos (Pos.of_nat (length (x :: rest)))
               = Z.of_nat (length (x :: rest))) by (simpl length; lia).
  unfold Qle. cbn [Qnum Qden]. rewrite Hn. lia.
Qed.

Lemma np_mean_nan (vals : list Z) : np_mean vals = NaN <-> vals = [].
Proof.
  destruct vals; simpl; split; intros H; try reflexivity; discriminate.
Qed.

Lemma binarize_px (contrast : Q) (img : ndarray) (i j : nat) :
  (0 <= px (binarize contrast img) i j <= 255)%Z.
Proof.
  cbn [binarize px]. destruct (Qle_bool _ _); lia.
Qed.

(** The mean that [get_bubble_means] takes over one rectangle. *)
Lemma bubble_mean_range (contrast : Q) (img : ndarray) (x0 x1 y0 y1 : option Z) :
  mean_in_range (np_mean (flatten (np_slice (binarize contrast img) x0 x1 y0 y1))).
Proof.
  apply np_mean_range, Forall_forall. intros v Hv.
  apply flatten_px in Hv. destruct Hv as (i & j & ->).
  cbn [np_slice px]. apply binarize_px.
Qed.

Lemma get_bubble_means_entry (f : Form) (img : ndarray) (i j : nat) :
  entry (get_bubble_means f img) i j
  = option_map
      (fun b : rect =>
         let '(i0, i1, j0, j1) := b in
         np_mean (flatten (np_slice (binarize (contrast f) img)
                                    (Some i0) (Some i1) (Some j0) (Some j1))))
      (entry (coords f) i j).
Proof.
  unfold entry, get_bubble_means. rewrite nth_error_map.
  destruct (nth_error (coords f) i) as [row|]; [|reflexivity].
  cbn [option_map]. rewrite nth_error_map. reflexivity.
Qed.

Lemma get_bubble_means_shape (f : Form) (img : ndarray) :
  length (get_bubble_means (calc_coords f) img) = fst (size f)
  /\ Forall (fun row => length row = snd (size f))
            (get_bubble_means (calc_coords f) img).
Proof.
  unfold get_bubble_means.
  change (coords (calc_coords f)) with (coords_matrix f).
  destruct (coords_matrix_shape f) as [Hlen Hrows].
  split; [rewrite length_map; assumption|].
  apply Forall_forall. intros row Hrow. apply in_map_iff in Hrow.
  destruct Hrow as (r & <- & Hr). rewrite length_map.
  rewrite Forall_forall in Hrows. auto.
Qed.

(** X13.  After [calc_coords] the matrix of bubble means has one row per
    question and one entry per answer choice, and every entry is NaN or a
    value from 0 to 255, whatever the image and the geometry. *)
Theorem get_bubble_means_shape_range (f : Form) (img : ndarray) :
  let means := get_bubble_means (calc_coords f) img in
  length means = fst (size f)
  /\ Forall (fun row => length row = snd (size f)) means
  /\ Forall (Forall mean_in_range) means.
Proof.
  cbv zeta. destruct (get_bubble_means_shape f img) as [Hlen Hrows].
  split; [assumption|]. split; [assumption|].
  unfold get_bubble_means.
  apply Forall_forall. intros row Hrow. apply in_map_iff in Hrow.
  destruct Hrow as (r & <- & _). apply Forall_forall. intros m Hm.
  apply in_map_iff in Hm. destruct Hm as ([[[i0 i1] j0] j1] & <- & _).
  apply bubble_mean_range.
Qed.

Lemma slice_index_inside (len : nat) (k : Z) :
  (0 <= k <= Z.of_nat len)%Z -> slice_index len k = Z.to_nat k.
Proof.
  intros H. unfold slice_index.
  destruct (Z.ltb_spec k 0); [lia|]. lia.
Qed.

Lemma slice_index_past (len : nat) (k : Z) :
  (Z.of_nat len <= k)%Z -> slice_index len k = len.
Proof.
  intros H. unfold slice_index.
  destruct (Z.ltb_spec k 0); lia.
Qed.

Lemma slice_index_le (len : nat) (k : Z) : (slice_index len k <= len)%nat.
Proof. unfold slice_index. lia. Qed.

(** X14.  The mean of a bubble whose rectangle lies inside the image and
    is not empty is a number; the mean of a bubble whose rectangle starts
    at or past the bottom or the right edge of the image is NaN. *)
Theorem bubble_mean_inside_or_off (f : Form) (img : ndarray) (i j : nat)
        (i0 i1 j0 j1 : Z) :
  entry (coords f) i j = Some (i0, i1, j0, j1) ->
  exists m,
    entry (get_bubble_means f img) i j = Some m
    /\ ((0 <= i0 < i1)%Z -> (i1 <= Z.of_nat (nrows img))%Z ->
        (0 <= j0 < j1)%Z -> (j1 <= Z.of_nat (ncols img))%Z ->
        exists q, m = Fin q /\ 0 <= q <= 255)
    /\ ((Z.of_nat (nrows img) <= i0)%Z \/ (Z.of_nat (ncols img) <= j0)%Z ->
        m = NaN).
Proof.
  intros Hb. rewrite get_bubble_means_entry, Hb. cbn [option_map].
  eexists. split; [reflexivity|].
  set (sl := np_slice (binarize (contrast f) img)
                      (Some i0) (Some i1) (Some j0) (Some j1)).
  split.
  - intros Hi Hi1 Hj Hj1.
    destruct (bubble_mean_range (contrast f) img
                (Some i0) (Some i1) (Some j0) (Some j1)) as [Hnan|Hfin];
      [|exact Hfin].
    exfalso. fold sl in Hnan. apply np_mean_nan in Hnan.
    apply (f_equal (@length Z)) in Hnan. rewrite length_flatten in Hnan.
    unfold sl in Hnan.
    cbn [np_slice binarize nrows ncols slice_start slice_stop length] in Hnan.
    rewrite !slice_index_inside in Hnan by lia. nia.
  - intros Hoff. apply np_mean_nan.
    apply length_zero_iff_nil. rewrite length_flatten. unfold sl.
    cbn [np_slice binarize nrows ncols slice_start slice_stop].
    pose proof (slice_index_le (nrows img) i1) as Li.
    pose proof (slice_index_le (ncols img) j1) as Lj.
    destruct Hoff as [H|H]; rewrite (slice_index_past _ _ H); nia.
Qed.

Lemma bubble_mean_inside_or_off_witness :
  exists m,
    entry (get_bubble_means (Form_init form_off_image) img_2x2) 1 2 = Some m
    /\ m = NaN.
Proof.
  destruct (bubble_mean_inside_or_off (Form_init form_off_image) img_2x2
              1 2 1 2 2 3 eq_refl) as (m & Hm & _ & Hoff).
  exists m. split; [exact Hm|]. apply Hoff. right. simpl. lia.
Defined.

(** ** Answer selection: any matrix of means *)

Lemma argmin_from_lt (l : list npfloat) :
  forall mp min_ind i,
    (min_ind < i)%nat -> (argmin_from mp min_ind i l < i + length l)%nat.
Proof.
  induction l as [|x l IH]; intros mp min_ind i H; simpl; [lia|].
  destruct (fge x mp).
  - specialize (IH mp min_ind (S i)). lia.
  - destruct (isnan x); [lia|]. specialize (IH x i (S i)). lia.
Qed.

Lemma np_argmin_lt (row : list npfloat) (k : nat) :
  np_argmin row = Ok k -> (k < length row)%nat.
Proof.
  destruct row as [|x l]; [discriminate|]. simpl.
  destruct (isnan x); intros H; injection H as <-; [lia|].
  pose proof (argmin_from_lt l x 0 1). lia.
Qed.

Lemma np_argmin_error (row : list npfloat) (e : exn) :
  np_argmin row = Raise e -> row = [] /\ e = ValueError.
Proof.
  destruct row as [|x l]; simpl.
  - intros H. injection H as <-. split; reflexivity.
  - destruct (isnan x); discriminate.
Qed.

Lemma mapM_length {A B : Type} (g : A -> result B) (l : list A) (ys : list B) :
  mapM g l = Ok ys -> length ys = length l.
Proof.
  intros H. apply mapM_Forall2 in H. symmetry. eapply Forall2_length. eassumption.
Qed.

Lemma np_insert_length (x : npfloat) (l : list npfloat) :
  length (np_insert x l) = S (length l).
Proof.
  induction l as [|y l IH]; [reflexivity|]. simpl.
  destruct (sort_lt x y); simpl; [reflexivity|]. rewrite IH. reflexivity.
Qed.

Lemma np_sort_length (l : list npfloat) : length (np_sort l) = length l.
Proof.
  induction l as [|x l IH]; [reflexivity|]. simpl.
  rewrite np_insert_length, IH. reflexivity.
Qed.

Lemma zip_with_length {A B C : Type} (g : A -> B -> C) (l : list A) (m : list B) :
  length l = length m -> length (zip_with g l m) = length l.
Proof.
  revert m. induction l as [|x l IH]; intros [|y m] H; simpl in *;
    try reflexivity; try discriminate.
  rewrite IH by lia. reflexivity.
Qed.

Lemma mask_assign_Forall2 (P : list npfloat -> Z -> Prop) (v : Z)
      (means : list (list npfloat)) (choice : list Z) (mask : list bool) :
  Forall2 P means choice -> length mask = length means ->
  Forall2 (fun row c => c = v \/ P row c) means (mask_assign choice mask v).
Proof.
  intros H. revert mask.
  induction H as [|row c means choice Hc H IH]; intros [|b mask] Hlen;
    simpl in *; try discriminate; constructor.
  - destruct b; [left; reflexivity|right; assumption].
  - apply IH. lia.
Qed.

Lemma argmin_rows_range (means : list (list npfloat)) (choice : list Z) :
  mapM (fun row => k <- np_argmin row ;; Ok (Z.of_nat k)) means = Ok choice ->
  Forall2 (fun row c => (0 <= c < Z.of_nat (length row))%Z) means choice.
Proof.
  intros H. apply mapM_Forall2 in H.
  induction H as [|row c means choice Hc H IH]; constructor; [|assumption].
  destruct (np_argmin row) as [k|] eqn:Hk; [|discriminate].
  cbn [bind] in Hc. injection Hc as <-. apply np_argmin_lt in Hk. lia.
Qed.

Lemma choice_range (f : Form) (means : list (list npfloat)) (choice : list Z) :
  choose_answers f means = Ok choice ->
  length choice = length means
  /\ Forall2 (fun row c => c = (-1)%Z \/ (0 <= c < Z.of_nat (length row))%Z)
             means choice.
Proof.
  unfold choose_answers. intros H.
  destruct (mapM _ means) as [ks|] eqn:Hks; [|discriminate]. cbn [bind] in H.
  pose proof (argmin_rows_range means ks Hks) as Hrange.
  destruct (truthy (signal f)).
  - destruct (column 1 (map np_sort means)) as [s1|] eqn:H1; [|discriminate].
    destruct (column 0 (map np_sort means)) as [s0|] eqn:H0; [|discriminate].
    cbn [bind] in H. injection H as <-.
    apply mapM_length in H1, H0. rewrite length_map in H1, H0.
    assert (Hmask : length (map (fun r => fle r (Fin (signal f)))
                                (zip_with fdiv s1 s0)) = length means).
    { rewrite length_map, zip_with_length; congruence. }
    pose proof (mask_assign_Forall2 _ (-1)%Z means ks _ Hrange Hmask) as Hres.
    split; [|exact Hres].
    symmetry. eapply Forall2_length. exact Hres.
  - injection H as <-. split.
    + symmetry. eapply Forall2_length. eassumption.
    + clear - Hrange. induction Hrange; constructor; auto.
Qed.

(** X15.  Whatever the means, NaN and infinities included, the choices
    that [choose_answers] returns are one per row, and each is [-1] or
    the index of a column of its row; with a threshold of zero none is
    [-1]. *)
Theorem choose_answers_range (f : Form) (means : list (list npfloat))
        (choice : list Z) :
  choose_answers f means = Ok choice ->
  length choice = length means
  /\ Forall2 (fun row c => c = (-1)%Z \/ (0 <= c < Z.of_nat (length row))%Z)
             means choice
  /\ (signal f == 0 -> Forall (fun c => (0 <= c)%Z) choice).
Proof.
  intros H. destruct (choice_range f means choice H) as [Hlen Hall].
  split; [assumption|]. split; [assumption|].
  intros Hz. unfold choose_answers in H.
  destruct (mapM _ means) as [ks|] eqn:Hks; [|discriminate]. cbn [bind] in H.
  assert (Ht : truthy (signal f) = false).
  { unfold truthy. apply negb_false_iff, Qeq_bool_iff. assumption. }
  rewrite Ht in H. injection H as <-.
  pose proof (argmin_rows_range means ks Hks) as Hrange.
  clear - Hrange. induction Hrange; constructor; [lia|assumption].
Qed.

Lemma choose_answers_range_witness :
  length [1%Z; (-1)%Z] = 2%nat
  /\ Forall2 (fun (row : list npfloat) c =>
                c = (-1)%Z \/ (0 <= c < Z.of_nat (length row))%Z)
             [[Fin 200; NaN; Fin 3]; [Fin 10; PInf; Fin 12]] [1%Z; (-1)%Z].
Proof.
  destruct (choose_answers_range (with_signal Form_default 2)
              [[Fin 200; NaN; Fin 3]; [Fin 10; PInf; Fin 12]] [1%Z; (-1)%Z])
    as (H1 & H2 & _).
  - vm_compute. reflexivity.
  - split; [exact H1|exact H2].
Defined.

(** ** Answer selection: errors *)

(** X16.  A matrix of means with a row without columns makes
    [choose_answers] end with the [ValueError] of the argmin of an empty
    sequence, whatever the threshold. *)
Theorem choose_answers_empty_row (f : Form) (means : list (list npfloat)) :
  In [] means -> choose_answers f means = Raise ValueError.
Proof.
  intros Hin. unfold choose_answers.
  assert (H : mapM (fun row => k <- np_argmin row ;; Ok (Z.of_nat k)) means
              = Raise ValueError).
  { induction means as [|row means IH]; [destruct Hin|].
    cbn [mapM]. destruct row as [|x l]; [reflexivity|].
    destruct Hin as [Hin|Hin]; [discriminate|].
    rewrite (IH Hin).
    destruct (np_argmin (x :: l)) as [k|e] eqn:Hk; [reflexivity|].
    apply np_argmin_error in Hk. destruct Hk as [Hk _]. discriminate. }
  rewrite H. reflexivity.
Qed.

Lemma choose_answers_empty_row_witness :
  choose_answers Form_default [[Fin 1; Fin 2]; []] = Raise ValueError.
Proof.
  apply (choose_answers_empty_row Form_default [[Fin 1; Fin 2]; []]).
  right. left. reflexivity.
Defined.

Lemma column_short (k : nat) (rows : list (list npfloat)) :
  (exists row, In row rows /\ (length row <= k)%nat) ->
  column k rows = Raise IndexError.
Proof.
  induction rows as [|row rows IH]; intros (r & Hin & Hlen); [destruct Hin|].
  rewrite column_cons. destruct (nth_error row k) as [x|] eqn:Hx; [|reflexivity].
  destruct Hin as [->|Hin].
  - exfalso. apply nth_error_None in Hlen. congruence.
  - rewrite IH; [reflexivity|]. exists r. split; assumption.
Qed.

Lemma argmin_rows_ok (means : list (list npfloat)) :
  (forall row, In row means -> row <> []) ->
  exists ks, mapM (fun row => k <- np_argmin row ;; Ok (Z.of_nat k)) means = Ok ks.
Proof.
  induction means as [|row means IH]; intros Hne.
  - exists []. reflexivity.
  - destruct IH as (ks & Hks); [intros; apply Hne; right; assumption|].
    cbn [mapM]. rewrite Hks.
    destruct (np_argmin row) as [k|e] eqn:Hk.
    + eexists. reflexivity.
    + apply np_argmin_error in Hk. destruct Hk as [Hk _].
      exfalso. apply (Hne row); [left; reflexivity|assumption].
Qed.

(** X17.  With a threshold that is not zero, a matrix of means with a
    row of one column makes [choose_answers] end with the [IndexError] of
    the second column of the sorted rows: the ratio needs two answer
    choices per question. *)
Theorem choose_answers_one_column (f : Form) (means : list (list npfloat)) :
  ~ signal f == 0 ->
  (forall row, In row means -> row <> []) ->
  (exists row, In row means /\ (length row < 2)%nat) ->
  choose_answers f means = Raise IndexError.
Proof.
  intros Hs Hne (row & Hin & Hlen). unfold choose_answers.
  destruct (argmin_rows_ok means Hne) as (ks & Hks). rewrite Hks. cbn [bind].
  assert (Ht : truthy (signal f) = true).
  { unfold truthy. apply negb_true_iff.
    destruct (Qeq_bool (signal f) 0) eqn:E; [|reflexivity].
    apply Qeq_bool_iff in E. contradiction. }
  rewrite Ht. rewrite column_short; [reflexivity|].
  exists (np_sort row). split; [apply in_map; assumption|].
  rewrite np_sort_length. lia.
Qed.

Lemma choose_answers_one_column_witness :
  choose_answers (with_signal Form_default 2) [[Fin 3]; [Fin 4]]
  = Raise IndexError.
Proof.
  apply (choose_answers_one_column (with_signal Form_default 2) [[Fin 3]; [Fin 4]]).
  - discriminate.
  - intros row [<-|[<-|[]]]; discriminate.
  - exists [Fin 3]. split; [left; reflexivity|simpl; lia].
Defined.

(** ** Answer selection: a bubble off the image *)

Lemma argmin_from_nan (l : list npfloat) :
  forall mp min_ind i p,
    nth_error l p = Some NaN ->
    (forall q x, (q < p)%nat -> nth_error l q = Some x -> isnan x = false) ->
    argmin_from mp min_ind i l = (i + p)%nat.
Proof.
  induction l as [|x l IH]; intros mp min_ind i p Hp Hbefore.
  - destruct p; discriminate.
  - destruct p as [|p]; simpl in Hp.
    + injection Hp as ->. simpl.
      replace (fge NaN mp) with false by (destruct mp; reflexivity). lia.
    + assert (Hx : isnan x = false) by (apply (Hbefore 0%nat); [lia|reflexivity]).
      assert (Hrest : forall q y, (q < p)%nat -> nth_error l q = Some y ->
                                  isnan y = false).
      { intros q y Hq Hy. apply (Hbefore (S q)); [lia|exact Hy]. }
      simpl. rewrite Hx.
      destruct (fge x mp); rewrite (IH _ _ _ p Hp Hrest); lia.
Qed.

Lemma np_argmin_nan (row : list npfloat) (k : nat) :
  nth_error row k = Some NaN ->
  (forall q x, (q < k)%nat -> nth_error row q = Some x -> isnan x = false) ->
  np_argmin row = Ok k.
Proof.
  intros Hk Hbefore. destruct row as [|x l]; [destruct k; discriminate|].
  destruct k as [|k]; simpl in Hk.
  - injection Hk as ->. reflexivity.
  - assert (Hx : isnan x = false) by (apply (Hbefore 0%nat); [lia|reflexivity]).
    simpl. rewrite Hx. f_equal.
    apply (argmin_from_nan l x 0 1 k Hk).
    intros q y Hq Hy. apply (Hbefore (S q)); [lia|exact Hy].
Qed.

Lemma Forall2_nth_error {A B : Type} (R : A -> B -> Prop) (l : list A)
      (l' : list B) (i : nat) (x : A) :
  Forall2 R l l' -> nth_error l i = Some x ->
  exists y, nth_error l' i = Some y /\ R x y.
Proof.
  intros H. revert i. induction H as [|a b l l' Hab H IH]; intros i Hi.
  - destruct i; discriminate.
  - destruct i as [|i]; simpl in Hi.
    + injection Hi as <-. exists b. split; [reflexivity|assumption].
    + apply IH. assumption.
Qed.

Lemma argmin_rows_argmin (means : list (list npfloat)) (ks : list Z) :
  mapM (fun row => k <- np_argmin row ;; Ok (Z.of_nat k)) means = Ok ks ->
  Forall2 (fun row c => exists k, np_argmin row = Ok k /\ c = Z.of_nat k)
          means ks.
Proof.
  intros H. apply mapM_Forall2 in H.
  induction H as [|row c means ks Hc _ IH]; constructor; [|assumption].
  destruct (np_argmin row) as [k|]; [|discriminate].
  cbn [bind] in Hc. injection Hc as <-. exists k. split; reflexivity.
Qed.

(** The choice of a row is [-1] or the argmin of the row, and the
    argmin when the threshold is zero. *)
Lemma choose_answers_argmin_or_flag (f : Form) (means : list (list npfloat))
      (choice : list Z) :
  choose_answers f means = Ok choice ->
  Forall2 (fun row c =>
             (c = (-1)%Z /\ ~ signal f == 0)
             \/ exists k, np_argmin row = Ok k /\ c = Z.of_nat k)
          means choice.
Proof.
  unfold choose_answers. intros H.
  destruct (mapM _ means) as [ks|] eqn:Hks; [|discriminate]. cbn [bind] in H.
  pose proof (argmin_rows_argmin means ks Hks) as Hk.
  unfold truthy in H. destruct (Qeq_bool (signal f) 0) eqn:E; cbn [negb] in H.
  - injection H as <-. clear - Hk. induction Hk; constructor; auto.
  - assert (Hs : ~ signal f == 0).
    { intros Hz. apply Qeq_bool_iff in Hz. congruence. }
    destruct (column 1 (map np_sort means)) as [s1|] eqn:H1; [|discriminate].
    destruct (column 0 (map np_sort means)) as [s0|] eqn:H0; [|discriminate].
    cbn [bind] in H. injection H as <-.
    apply mapM_length in H1, H0. rewrite length_map in H1, H0.
    assert (Hmask : length (map (fun r => fle r (Fin (signal f)))
                                (zip_with fdiv s1 s0)) = length means).
    { rewrite length_map, zip_with_length; congruence. }
    pose proof (mask_assign_Forall2 _ (-1)%Z means ks _ Hk Hmask) as Hres.
    clear - Hres Hs. induction Hres as [|row c means l [Hc|Hc] _ IH];
      constructor; auto.
Qed.

(** X18.  A NaN among the means of a row, the mean of a bubble off the
    image, counts as the minimum: with a threshold of zero the choice of
    the row is the column of its first NaN, and with another threshold it
    is that column or [-1]. *)
Theorem choose_answers_nan_wins (f : Form) (means : list (list npfloat))
        (choice : list Z) (i k : nat) (row : list npfloat) :
  choose_answers f means = Ok choice ->
  nth_error means i = Some row ->
  nth_error row k = Some NaN ->
  (forall q x, (q < k)%nat -> nth_error row q = Some x -> isnan x = false) ->
  exists c, nth_error choice i = Some c
            /\ (c = Z.of_nat k \/ (c = (-1)%Z /\ ~ signal f == 0)).
Proof.
  intros H Hrow Hk Hbefore.
  pose proof (choose_answers_argmin_or_flag f means choice H) as Hall.
  destruct (Forall2_nth_error _ _ _ i row Hall Hrow) as (c & Hc & Hcase).
  exists c. split; [assumption|].
  destruct Hcase as [Hflag|(k' & Hk' & ->)]; [right; assumption|left].
  rewrite (np_argmin_nan row k Hk Hbefore) in Hk'. congruence.
Qed.

Lemma choose_answers_nan_wins_witness :
  exists c, nth_error [0%Z; 2%Z] 1 = Some c
            /\ (c = Z.of_nat 2 \/ (c = (-1)%Z /\ ~ signal Form_default == 0)).
Proof.
  apply (choose_answers_nan_wins Form_default
           [[Fin 0; Fin 255; Fin 255]; [Fin 255; Fin 0; NaN]] [0%Z; 2%Z]
           1 2 [Fin 255; Fin 0; NaN]).
  - reflexivity.
  - reflexivity.
  - reflexivity.
  - intros [|[|q]] x Hq Hx; simpl in Hx; try lia; injection Hx as <-; reflexivity.
Defined.

(** ** Answer selection: what the threshold cannot flag *)

Lemma first_min_unique (row : list Q) (k k' : nat) :
  first_min row k -> first_min row k' -> k = k'.
Proof.
  intros (v & Hv & Hle & Hlt) (v' & Hv' & Hle' & Hlt').
  destruct (Nat.lt_trichotomy k k') as [H|[H|H]]; [exfalso|assumption|exfalso].
  - apply (Qlt_irrefl v'). apply Qlt_le_trans with v; eauto.
  - apply (Qlt_irrefl v). apply Qlt_le_trans with v'; eauto.
Qed.

(** X19.  A row whose darkest mean is 0, a bubble filled completely, is
    never flagged: whatever the threshold, and even when a second bubble
    of the row is filled as completely, the choice is the first column of
    mean 0, the ratio to a mean of 0 being infinite or undefined. *)
Theorem choose_answers_filled_bubble (f : Form) (means : list (list Q)) :
  (forall row, In row means -> row <> []) ->
  (~ signal f == 0 -> forall row, In row means -> (2 <= length row)%nat) ->
  exists choice,
    choose_answers f (map (map Fin) means) = Ok choice
    /\ Forall2 (fun row c =>
                  forall k v, first_min row k -> nth_error row k = Some v ->
                              v == 0 -> c = Z.of_nat k)
               means choice.
Proof.
  intros Hne Hlen.
  destruct (choose_answers_row_choice f means Hne Hlen) as (choice & Heq & Hall).
  exists choice. split; [assumption|].
  clear - Hall.
  induction Hall as [|row c means choice (k0 & Hmin0 & H0 & Hs) _ IH];
    constructor; [|assumption].
  intros k v Hmin Hv Hz.
  rewrite (first_min_unique row k k0 Hmin Hmin0).
  destruct (Qeq_dec (signal f) 0) as [Hsz|Hsnz]; [auto|].
  destruct (Hs Hsnz) as (a & b & Htwo & _ & Hnamb).
  apply Hnamb. intros [Ha _]. apply Ha.
  destruct (two_darkest_first_min row a b k Htwo Hmin) as (v' & Hv' & Hva).
  rewrite <- Hva. assert (v' = v) by congruence. subst v'. assumption.
Qed.

Lemma choose_answers_filled_bubble_witness :
  exists choice,
    choose_answers (with_signal Form_default 3)
                   (map (map Fin) [[255; 0; 0]; [0; 255; 128]]) = Ok choice
    /\ Forall2 (fun row c =>
                  forall k v, first_min row k -> nth_error row k = Some v ->
                              v == 0 -> c = Z.of_nat k)
               [[255; 0; 0]; [0; 255; 128]] choice.
Proof.
  apply (choose_answers_filled_bubble (with_signal Form_default 3)
           [[255; 0; 0]; [0; 255; 128]]).
  - intros row [<-|[<-|[]]]; discriminate.
  - intros _ row [<-|[<-|[]]]; simpl; lia.
Defined.

(** X20.  On means that are not negative, as bubble means are, a
    threshold below 1 flags nothing: the ratio of the second smallest to
    the smallest mean is 1 at least, so every row gets its plain argmin,
    as with a threshold of zero. *)
Theorem choose_answers_threshold_below_one (f : Form) (means : list (list Q)) :
  signal f < 1 ->
  (forall row, In row means -> Forall (Qle 0) row) ->
  (forall row, In row means -> row <> []) ->
  (~ signal f == 0 -> forall row, In row means -> (2 <= length row)%nat) ->
  exists ks,
    choose_answers f (map (map Fin) means) = Ok (map Z.of_nat ks)
    /\ Forall2 first_min means ks.
Proof.
  intros Hs Hpos Hne Hlen.
  destruct (choose_answers_row_choice f means Hne Hlen) as (choice & Heq & Hall).
  rewrite Heq.
  assert (Hks : exists ks, choice = map Z.of_nat ks /\ Forall2 first_min means ks).
  { clear Heq Hne Hlen.
    induction Hall as [|row c means choice (k & Hmin & H0 & Hsig) _ IH].
    - exists []. split; [reflexivity|constructor].
    - destruct IH as (ks & -> & Hks);
        [intros; apply Hpos; right; assumption|].
      exists (k :: ks). split; [|constructor; assumption].
      cbn [map]. f_equal.
      destruct (Qeq_dec (signal f) 0) as [Hz|Hnz]; [auto|].
      destruct (Hsig Hnz) as (a & b & Htwo & _ & Hnamb).
      apply Hnamb. intros [Ha Hratio].
      destruct Htwo as (rest & Hperm & Hab & _).
      assert (Ha0 : 0 <= a).
      { assert (Hrow : Forall (Qle 0) row) by (apply Hpos; left; reflexivity).
        rewrite Forall_forall in Hrow. apply Hrow.
        apply (Permutation_in _ Hperm). left; reflexivity. }
      assert (Hapos : 0 < a).
      { destruct (Qlt_le_dec 0 a) as [H|H]; [assumption|].
        exfalso. apply Ha. apply Qle_antisym; assumption. }
      apply (Qlt_irrefl 1). apply Qle_lt_trans with (signal f); [|assumption].
      apply Qle_trans with (b / a); [|assumption].
      apply Qle_shift_div_l; [assumption|]. rewrite Qmult_1_l. assumption. }
  destruct Hks as (ks & -> & Hks). exists ks. split; [reflexivity|assumption].
Qed.

Lemma choose_answers_threshold_below_one_witness :
  exists ks,
    choose_answers (with_signal Form_default (9 # 10))
                   (map (map Fin) [[12; 10; 200]; [5; 5; 5]])
    = Ok (map Z.of_nat ks)
    /\ Forall2 first_min [[12; 10; 200]; [5; 5; 5]] ks.
Proof.
  apply (choose_answers_threshold_below_one (with_signal Form_default (9 # 10))
           [[12; 10; 200]; [5; 5; 5]]).
  - reflexivity.
  - intros row [<-|[<-|[]]]; repeat constructor; discriminate.
  - intros row [<-|[<-|[]]]; discriminate.
  - intros _ row [<-|[<-|[]]]; simpl; lia.
Defined.

(** ** The pipeline: the answers returned *)

Lemma set_offset_calc_coords (f : Form) (r c : Z) :
  exists g, set_offset f r c = calc_coords g /\ size g = size f.
Proof. eexists. split; reflexivity. Qed.

Lemma analyse_form (io : Codec) (config : Form) (imfile : string)
      (form : Form) (img : ndarray) (means : list (list npfloat))
      (choice : list Z) :
  analyse io config imfile = Ok (form, img, means, choice) ->
  (exists g, form = calc_coords g /\ size g = size config)
  /\ means = get_bubble_means form img
  /\ choose_answers form means = Ok choice.
Proof.
  unfold analyse, locate. intros H.
  destruct (image_load io (Form_init config) imfile) as [img0|]; [|discriminate].
  cbn [bind] in H.
  destruct (trim_margins (Form_init config) img0) as [img1|]; [|discriminate].
  cbn [bind] in H.
  destruct (check_size (Form_init config) img1) as [[]|]; [|discriminate].
  cbn [bind] in H.
  destruct (refzone_set (Form_init config)).
  - destruct (fit_reference (Form_init config) img1) as [[meanfit fit]|];
      [|discriminate].
    cbn [bind] in H.
    destruct (overlay_ref_fit (Form_init config) img1 meanfit fit) as [img2|];
      [|discriminate].
    cbn [bind] in H.
    destruct (choose_answers _ _) as [ch|] eqn:Hc; [|discriminate].
    cbn [bind] in H. injection H as <- <- <- <-.
    split; [|split; [reflexivity|assumption]].
    destruct (set_offset_calc_coords (Form_init config) (fst meanfit)
                (snd meanfit)) as (g & Hg & Hsize).
    exists g. split; assumption.
  - cbn [bind] in H.
    destruct (choose_answers _ _) as [ch|] eqn:Hc; [|discriminate].
    cbn [bind] in H. injection H as <- <- <- <-.
    split; [|split; [reflexivity|assumption]].
    exists config. split; reflexivity.
Qed.

(** X21.  The answers that [process_exam] returns are one per question
    of the configured grid, and each is [-1] or the index of one of the
    configured answer choices, with or without a reference fit. *)
Theorem process_exam_answers (io : Codec) (config : Form) (imfile : string)
        (choice : list Z) :
  process_exam io config imfile = Ok choice ->
  length choice = fst (size config)
  /\ Forall (fun c => c = (-1)%Z \/ (0 <= c < Z.of_nat (snd (size config)))%Z)
            choice.
Proof.
  intros H. rewrite process_exam_analyse in H.
  destruct (analyse io config imfile) as [[[[form img] means] ch]|] eqn:Han;
    [|discriminate].
  cbn [bind] in H.
  destruct (render io form img means imfile); [|discriminate].
  cbn [bind] in H. injection H as ->.
  destruct (analyse_form _ _ _ _ _ _ _ Han) as ((g & -> & Hsize) & -> & Hch).
  destruct (get_bubble_means_shape g img) as (Hlen & Hrows).
  destruct (choice_range _ _ _ Hch) as (Hl & Hall).
  rewrite <- Hsize. split; [congruence|].
  clear - Hall Hrows.
  induction Hall as [|row c means choice Hc _ IH]; [constructor|].
  inversion Hrows as [|? ? Hrow Hrows']; subst.
  constructor; [|apply IH; assumption].
  rewrite <- Hrow. assumption.
Qed.

Lemma process_exam_answers_witness :
  length [0%Z; 0%Z] = fst (size form_2x2)
  /\ Forall (fun c => c = (-1)%Z \/ (0 <= c < Z.of_nat (snd (size form_2x2)))%Z)
            [0%Z; 0%Z].
Proof.
  apply (process_exam_answers codec_2x2 form_2x2 "exam.tif" [0%Z; 0%Z]).
  vm_compute. reflexivity.
Defined.

(** X22.  A form with reference boxes and a search radius of zero (the
    class default) or less cannot be processed: once the image is loaded,
    trimmed and of the right size, the first box search finds no
    candidate and [process_exam] ends with its [ValueError]. *)
Theorem process_exam_no_radius (io : Codec) (config : Form) (imfile : string)
        (form : Form) (img : ndarray) (b : rect) (zone : list rect) :
  refzone config = Some (b :: zone) ->
  (radius config <= 0)%Z ->
  locate io config imfile = Ok (form, img) ->
  process_exam io config imfile = Raise ValueError.
Proof.
  intros Hzone Hr Hloc. rewrite process_exam_analyse. unfold analyse.
  rewrite Hloc. cbn [bind].
  assert (Hform : form = Form_init config).
  { unfold locate in Hloc.
    destruct (image_load io (Form_init config) imfile); [|discriminate].
    cbn [bind] in Hloc.
    destruct (trim_margins (Form_init config) _); [|discriminate].
    cbn [bind] in Hloc.
    destruct (check_size (Form_init config) _); [|discriminate].
    cbn [bind] in Hloc. injection Hloc as <- _. reflexivity. }
  subst form.
  assert (Hset : refzone_set (Form_init config) = true).
  { unfold refzone_set. cbn [Form_init calc_coords set_coords refzone].
    rewrite Hzone. reflexivity. }
  rewrite Hset.
  assert (Hfit : fit_reference (Form_init config) img = Raise ValueError).
  { unfold fit_reference.
    cbn [Form_init calc_coords set_coords refzone contrast].
    rewrite Hzone. unfold box_fits. cbn [mapM].
    destruct b as [[[xmin xmax] ymin] ymax].
    cbn [Form_init calc_coords set_coords radius min_ref].
    unfold center_on_box. rewrite (search_coords_empty _ Hr). reflexivity. }
  rewrite Hfit. reflexivity.
Qed.

Lemma process_exam_no_radius_witness :
  process_exam codec_2x2 form_no_radius "exam.tif" = Raise ValueError.
Proof.
  destruct (locate codec_2x2 form_no_radius "exam.tif") as [[form img]|e] eqn:H.
  - apply (process_exam_no_radius codec_2x2 form_no_radius "exam.tif"
             form img (0, 1, 0, 1)%Z []).
    + reflexivity.
    + simpl. lia.
    + exact H.
  - exfalso. vm_compute in H. discriminate.
Defined.

(** X23.  The class declares [refrc], and [overlay_ref_fit] reads
    [ref_rc]: a form with exactly four reference boxes whose configuration
    does not set [ref_rc] cannot be processed.  Once the image is located
    and the boxes are fitted, [process_exam] ends with the
    [AttributeError] of the overlay. *)
Theorem process_exam_four_boxes (io : Codec) (config : Form) (imfile : string)
        (form : Form) (img : ndarray) (zone : list rect)
        (mf : (Z * Z) * list (Z * Z)) :
  refzone config = Some zone -> length zone = 4%nat ->
  ref_rc config = None ->
  locate io config imfile = Ok (form, img) ->
  fit_reference form img = Ok mf ->
  process_exam io config imfile = Raise AttributeError.
Proof.
  intros Hzone Hlen Hrc Hloc Hfit. rewrite process_exam_analyse. unfold analyse.
  rewrite Hloc. cbn [bind].
  assert (Hform : form = Form_init config).
  { unfold locate in Hloc.
    destruct (image_load io (Form_init config) imfile); [|discriminate].
    cbn [bind] in Hloc.
    destruct (trim_margins (Form_init config) _); [|discriminate].
    cbn [bind] in Hloc.
    destruct (check_size (Form_init config) _); [|discriminate].
    cbn [bind] in Hloc. injection Hloc as <- _. reflexivity. }
  subst form.
  assert (Hset : refzone_set (Form_init config) = true).
  { unfold refzone_set. cbn [Form_init calc_coords set_coords refzone].
    rewrite Hzone. destruct zone; [discriminate|reflexivity]. }
  rewrite Hset, Hfit. cbn [bind]. destruct mf as [meanfit fit].
  assert (Hov : overlay_ref_fit (Form_init config) img meanfit fit
                = Raise AttributeError).
  { unfold overlay_ref_fit.
    cbn [Form_init calc_coords set_coords refzone ref_rc].
    rewrite Hzone, Hlen, Hrc. reflexivity. }
  rewrite Hov. reflexivity.
Qed.

Lemma process_exam_four_boxes_witness :
  process_exam codec_2x2 form_four_boxes "exam.tif" = Raise AttributeError.
Proof.
  destruct (locate codec_2x2 form_four_boxes "exam.tif") as [[form img]|e] eqn:H.
  - destruct (fit_reference form img) as [mf|e] eqn:Hfit.
    + apply (process_exam_four_boxes codec_2x2 form_four_boxes "exam.tif"
               form img
               [(0, 1, 0, 1); (0, 1, 0, 1); (0, 1, 0, 1); (0, 1, 0, 1)]%Z mf).
      * reflexivity.
      * reflexivity.
      * reflexivity.
      * exact H.
      * exact Hfit.
    + exfalso. vm_compute in H. injection H as <- <-.
      vm_compute in Hfit. discriminate.
  - exfalso. vm_compute in H. discriminate.
Defined.

(** ** Diagnostics: what the overlays write *)

Lemma written_same_shape (a b : ndarray) (r : rect) (i j : nat) :
  shape a = shape b -> written a r i j = written b r i j.
Proof.
  unfold shape. intros H. injection H as Hr Hc.
  destruct r as [[[x0 x1] y0] y1]. unfold written. rewrite Hr, Hc. reflexivity.
Qed.

Lemma overlay_fold (img : ndarray) (l : list (rect * npfloat)) :
  forall a, shape a = shape img ->
    let res := fold_left
                 (fun im (bm : rect * npfloat) =>
                    let '((i0, i1, j0, j1), m) := bm in
                    np_assign im i0 i1 j0 j1 (to_pixel m)) l a in
    shape res = shape img
    /\ forall i j, (forall bm, In bm l -> written img (fst bm) i j = false) ->
                   px res i j = px a i j.
Proof.
  induction l as [|[[[[i0 i1] j0] j1] m] l IH]; intros a Ha; cbn [fold_left].
  - split; [assumption|reflexivity].
  - destruct (IH (np_assign a i0 i1 j0 j1 (to_pixel m)) Ha) as [Hs Hpx].
    split; [exact Hs|].
    intros i j Hout. rewrite Hpx by (intros; apply Hout; right; assumption).
    assert (Hw : written a (i0, i1, j0, j1) i j = false).
    { rewrite (written_same_shape a img) by assumption.
      apply (Hout ((i0, i1, j0, j1), m)). left. reflexivity. }
    cbn [np_assign px]. unfold written in Hw. rewrite Hw. reflexivity.
Qed.

Lemma overlay_bubble_means_frame (f : Form) (img : ndarray)
      (means : list (list npfloat)) :
  shape (overlay_bubble_means f img means) = shape img
  /\ forall i j,
       (forall b, In b (concat (coords f)) -> written img b i j = false) ->
       px (overlay_bubble_means f img means) i j = px img i j.
Proof.
  unfold overlay_bubble_means.
  destruct (overlay_fold img (combine (concat (coords f)) (concat means)) img
              eq_refl) as [Hs Hpx].
  split; [exact Hs|].
  intros i j Hout. apply Hpx. intros [b m] Hin.
  apply in_combine_l in Hin. apply Hout. assumption.
Qed.

(** X24.  Overlaying the bubble means of an image onto that image, as
    [process_exam] does, keeps the size of the image and writes inside
    the bubble rectangles only: a pixel that is in none of the rectangles
    of the coordinate matrix keeps its value. *)
Theorem overlay_bubble_means_outside (f : Form) (img : ndarray) :
  let g := calc_coords f in
  let out := overlay_bubble_means g img (get_bubble_means g img) in
  shape out = shape img
  /\ forall i j,
       (forall b, In b (concat (coords_matrix f)) -> written img b i j = false) ->
       px out i j = px img i j.
Proof.
  cbv zeta.
  exact (overlay_bubble_means_frame (calc_coords f) img
           (get_bubble_means (calc_coords f) img)).
Qed.

(** ** Diagnostics: the name image *)


